(** * The Netflix recommendation engine of [netflix_rec.py]

    A shallow embedding of the catalog functions of [src/netflix_rec.py]:
    [get_dropdown_options], [get_smart_recommendations],
    [analyze_netflix_data] and the flow of
    [get_and_display_recommendations], together with the parts of pandas,
    [re] and [collections.Counter] they rely on.

    Conventions.
    - Text is ASCII ([string]); the folding of [re.IGNORECASE] and the
      whitespace of [str.strip] are the ASCII ones.
    - [release_year] after [pd.to_numeric(..., errors='coerce')] is a number
      or NaN: [option Z], with [None] for NaN.
    - [listed_in], [director] and [country] went through [fillna('')], so
      they are always strings.
    - [popularity_score] is a float holding a multiple of one half; it is
      kept exactly, as a rational.
    - The patterns of [str.contains] are read as Python's [re] reads them,
      on the fragment given in [Re]; where the string back-ends of pandas
      are known to differ (an invalid pattern on a column without rows) the
      outcome is [Unmodelled]. *)

From Stdlib Require Import String Ascii List ZArith QArith Lia Bool.
From Stdlib Require Import Permutation Sorted.
Import ListNotations.

Local Open Scope string_scope.
Local Open Scope Z_scope.

(** ** Data model *)

(** One row of the [netflix_data] frame (the columns the engine reads). *)
Record title_record : Type := mkTitle {
  title : string;
  type : string;
  release_year : option Z;
  listed_in : string;
  director : string;
  country : string
}.

Definition catalog := list title_record.

(** A comparison of a float column against a number: NaN compares false. *)
Definition year_ge (y : option Z) (bound : Z) : bool :=
  match y with
  | Some v => bound <=? v
  | None => false
  end.

(** ** Scoring *)

(** [Series.str.count(',')]: the number of commas of a field. *)
Fixpoint str_count_comma (s : string) : Z :=
  match s with
  | EmptyString => 0
  | String c rest =>
      (if Ascii.eqb c "," then 1 else 0) + str_count_comma rest
  end.

(** [filtered['genre_count'] = filtered['listed_in'].str.count(',') + 1] *)
Definition genre_count (r : title_record) : Z :=
  str_count_comma (listed_in r) + 1.

(** The three masked [+=] of the "newer content bonus", applied in the
    order of the source to a score that starts at 0. *)
Definition recency_bonus (y : option Z) : Z :=
  let score := 0 in
  let score := if year_ge y 2018 then score + 3 else score in
  let score := if year_ge y 2015 then score + 2 else score in
  let score := if year_ge y 2010 then score + 1 else score in
  score.

(** [popularity_score] after the "multiple genres bonus". *)
Definition popularity_score (r : title_record) : Q :=
  inject_Z (recency_bonus (release_year r)) + inject_Z (genre_count r) * (1 # 2).

(** The tiers the specification describes, for comparison with
    [recency_bonus]. *)
Definition spec_recency_bonus (y : Z) : Z :=
  if 2018 <=? y then 3
  else if 2015 <=? y then 2
  else if 2010 <=? y then 1
  else 0.

(** ** Outcomes

    A call returns a value, raises an exception (its message is kept,
    without the position that ends it), or leaves what is modelled below: the fragment of the pattern language that
    is covered, and the behaviour that all versions of pandas share. *)
Inductive outcome (A : Type) : Type :=
| Returns (a : A)
| Raises (msg : string)
| Unmodelled.

Arguments Returns {A} a.
Arguments Raises {A} msg.
Arguments Unmodelled {A}.

Definition bind {A B : Type} (m : outcome A) (k : A -> outcome B) : outcome B :=
  match m with
  | Returns a => k a
  | Raises msg => Raises msg
  | Unmodelled => Unmodelled
  end.

Notation "x <- m ;; k" := (bind m (fun x => k))
  (at level 61, m at next level, right associativity).

(** ** Regular expressions: the fragment of [re] that [str.contains] reaches

    [Series.str.contains(pat, case=False, na=False)] keeps pandas' default
    [regex=True]: the pattern is compiled with [re.compile(pat,
    re.IGNORECASE)] and a row is selected when [regex.search(field)] finds a
    match. *)
Module Re.

Inductive regex : Type :=
| Void
| Eps
| Lit (c : ascii)
| AnyChar
| Cat (r1 r2 : regex)
| Alt (r1 r2 : regex)
| Star (r : regex).

(** ASCII lower-casing, the folding of [re.IGNORECASE] on ASCII text. *)
Definition lower (c : ascii) : ascii :=
  let n := nat_of_ascii c in
  if ((65 <=? n) && (n <=? 90))%nat then ascii_of_nat (n + 32) else c.

Definition newline : ascii := ascii_of_nat 10.

(** A literal of the pattern against a character of the text. *)
Definition lit_match (ignorecase : bool) (c d : ascii) : bool :=
  if ignorecase then Ascii.eqb (lower c) (lower d) else Ascii.eqb c d.

(** [.] matches everything but a newline (no [re.DOTALL]). *)
Definition any_match (d : ascii) : bool := negb (Ascii.eqb d newline).

(** The language of a pattern. *)
Inductive matches (ic : bool) : regex -> list ascii -> Prop :=
| MEps : matches ic Eps []
| MLit c d : lit_match ic c d = true -> matches ic (Lit c) [d]
| MAny d : any_match d = true -> matches ic AnyChar [d]
| MCat r1 r2 w1 w2 :
    matches ic r1 w1 -> matches ic r2 w2 -> matches ic (Cat r1 r2) (w1 ++ w2)
| MAltL r1 r2 w : matches ic r1 w -> matches ic (Alt r1 r2) w
| MAltR r1 r2 w : matches ic r2 w -> matches ic (Alt r1 r2) w
| MStar0 r : matches ic (Star r) []
| MStarS r w1 w2 :
    matches ic r w1 -> matches ic (Star r) w2 -> matches ic (Star r) (w1 ++ w2).

(** The matcher, by derivatives. *)
Fixpoint nullable (r : regex) : bool :=
  match r with
  | Void => false
  | Eps => true
  | Lit _ => false
  | AnyChar => false
  | Cat r1 r2 => nullable r1 && nullable r2
  | Alt r1 r2 => nullable r1 || nullable r2
  | Star _ => true
  end.

Fixpoint deriv (ic : bool) (d : ascii) (r : regex) : regex :=
  match r with
  | Void => Void
  | Eps => Void
  | Lit c => if lit_match ic c d then Eps else Void
  | AnyChar => if any_match d then Eps else Void
  | Cat r1 r2 =>
      if nullable r1
      then Alt (Cat (deriv ic d r1) r2) (deriv ic d r2)
      else Cat (deriv ic d r1) r2
  | Alt r1 r2 => Alt (deriv ic d r1) (deriv ic d r2)
  | Star r1 => Cat (deriv ic d r1) (Star r1)
  end.

(** Does some prefix of [s] belong to the pattern? ([regex.match]) *)
Fixpoint match_prefix (ic : bool) (r : regex) (s : list ascii) : bool :=
  nullable r ||
  match s with
  | [] => false
  | d :: s' => match_prefix ic (deriv ic d r) s'
  end.

(** Does a match start at some position of [s]? ([regex.search]) *)
Fixpoint search (ic : bool) (r : regex) (s : list ascii) : bool :=
  match_prefix ic r s ||
  match s with
  | [] => false
  | _ :: s' => search ic r s'
  end.

(** *** Parsing a pattern *)

Inductive token : Type :=
| TChar (c : ascii)
| TDot
| TStar
| TPlus
| TQuest
| TBar
| TOpen
| TClose
| TBadEscape
| TOther.

Definition is_alnum (c : ascii) : bool :=
  let n := nat_of_ascii c in
  (((48 <=? n) && (n <=? 57)) || ((65 <=? n) && (n <=? 90))
   || ((97 <=? n) && (n <=? 122)))%nat.

(** The characters [sre_parse] treats specially: [.\[{()*+?^$|]. The
    closing [\]] and [}] are ordinary outside a class or a repetition. *)
Definition is_special (c : ascii) : bool :=
  existsb (Ascii.eqb c)
    ["."; "\"; "["; "{"; "("; ")"; "*"; "+"; "?"; "^"; "$"; "|"]%char.

(** Tokens of a pattern. [TOther] stands for syntax outside the modelled
    fragment: classes, counted repetitions, anchors, [(?...)] extensions
    and the escapes of letters and digits. *)
Fixpoint tokenize (p : list ascii) : list token :=
  match p with
  | [] => []
  | c :: rest =>
      if Ascii.eqb c "\" then
        match rest with
        | [] => [TBadEscape]
        | e :: rest' =>
            (if is_alnum e then TOther else TChar e) :: tokenize rest'
        end
      else if Ascii.eqb c "." then TDot :: tokenize rest
      else if Ascii.eqb c "*" then TStar :: tokenize rest
      else if Ascii.eqb c "+" then TPlus :: tokenize rest
      else if Ascii.eqb c "?" then TQuest :: tokenize rest
      else if Ascii.eqb c "|" then TBar :: tokenize rest
      else if Ascii.eqb c ")" then TClose :: tokenize rest
      else if Ascii.eqb c "(" then
        match rest with
        | "?"%char :: _ => [TOther]
        | _ => TOpen :: tokenize rest
        end
      else if is_special c then [TOther]
      else TChar c :: tokenize rest
  end.

(** A parenthesis level under construction: the alternatives already
    closed by [|] and the items of the current one, both latest first. *)
Record frame : Type := mkFrame {
  alts : list regex;
  items : list regex
}.

Definition empty_frame : frame := mkFrame [] [].

Definition cat_list (rs : list regex) : regex := fold_right Cat Eps rs.
Definition alt_list (rs : list regex) : regex := fold_right Alt Void rs.

Definition close_items (f : frame) : regex := cat_list (rev (items f)).

Definition close_frame (f : frame) : regex :=
  alt_list (rev (close_items f :: alts f)).

Definition push_item (r : regex) (f : frame) : frame :=
  mkFrame (alts f) (r :: items f).

(** The tokenizer of [sre_parse] is one token ahead of the parser: taking
    a token reads the next one, and a lone backslash that ends the pattern
    is reported at that moment, before the token taken is processed. *)
Definition bad_escape_next (rest : list token) : bool :=
  match rest with
  | TBadEscape :: _ => true
  | _ => false
  end.

(** A closing parenthesis outside every group is only looked at, never
    taken: the parser stops on it and reports it. *)
Definition unopened_close (tok : token) (stack : list frame) : bool :=
  match tok, stack with
  | TClose, [] => true
  | _, _ => false
  end.

(** The parser of [sre_parse], as a loop over the tokens with the stack of
    open groups. [after_repeat] records that the previous token was a
    repetition operator: a second operator there is a lazy or possessive
    mark or a "multiple repeat" error, according to the Python version, and
    is left unmodelled. *)
Fixpoint parse (ts : list token) (cur : frame) (stack : list frame)
    (after_repeat : bool) : outcome regex :=
  let repeat (build : regex -> regex) (rest : list token) :=
    match items cur with
    | [] => Raises "nothing to repeat"
    | r :: rs =>
        if after_repeat then Unmodelled
        else parse rest (mkFrame (alts cur) (build r :: rs)) stack true
    end in
  match ts with
  | [] =>
      match stack with
      | [] => Returns (close_frame cur)
      | _ :: _ => Raises "missing ), unterminated subpattern"
      end
  | tok :: rest =>
      if unopened_close tok stack then Raises "unbalanced parenthesis"
      else if bad_escape_next rest then Raises "bad escape (end of pattern)"
      else
        match tok with
        | TChar c => parse rest (push_item (Lit c) cur) stack false
        | TDot => parse rest (push_item AnyChar cur) stack false
        | TStar => repeat Star rest
        | TPlus => repeat (fun r => Cat r (Star r)) rest
        | TQuest => repeat (fun r => Alt r Eps) rest
        | TBar =>
            parse rest (mkFrame (close_items cur :: alts cur) []) stack false
        | TOpen => parse rest empty_frame (cur :: stack) false
        | TClose =>
            match stack with
            | [] => Raises "unbalanced parenthesis"
            | outer :: stack' =>
                parse rest (push_item (close_frame cur) outer) stack' false
            end
        | TBadEscape => Raises "bad escape (end of pattern)"
        | TOther => Unmodelled
        end
  end.

(** [re.compile(pat)] *)
Definition compile (pat : string) : outcome regex :=
  parse (tokenize (list_ascii_of_string pat)) empty_frame [] false.

End Re.

(** ** Python and pandas helpers *)

(** Truthiness of an optional string argument: [None] and [''] are false. *)
Definition truthy (s : option string) : bool :=
  match s with
  | None => false
  | Some v => negb (String.eqb v "")
  end.

Definition arg_text (s : option string) : string :=
  match s with
  | None => ""
  | Some v => v
  end.

(** [col.str.contains(pat, case=case, na=False)] on a column of strings,
    with pandas' default [regex=True]: a row is selected when the pattern
    has a match somewhere in its field. A pattern that does not compile
    makes the call raise on a column that has rows (the message kept is the
    one of Python's [re]; the exception class and its text depend on the
    string back-end of the column). On a column without rows the back-ends
    differ, one raising and one returning the empty mask: that case is left
    unmodelled. *)
Definition str_contains (col : list string) (pat : string) (case : bool)
    : outcome (list bool) :=
  match Re.compile pat with
  | Returns rx =>
      Returns (map (fun s => Re.search (negb case) rx (list_ascii_of_string s))
                 col)
  | Raises msg =>
      match col with
      | [] => Unmodelled
      | _ :: _ => Raises msg
      end
  | Unmodelled => Unmodelled
  end.

(** Boolean-mask indexing [frame[mask]]. *)
Fixpoint select {A : Type} (rows : list A) (mask : list bool) : list A :=
  match rows, mask with
  | r :: rows', b :: mask' =>
      if b then r :: select rows' mask' else select rows' mask'
  | _, _ => []
  end.

(** [frame.head(n)]: the first [n] rows, or all but the last [-n] rows when
    [n] is negative. *)
Definition head {A : Type} (n : Z) (rows : list A) : list A :=
  if 0 <=? n then firstn (Z.to_nat n) rows
  else firstn (length rows - Z.to_nat (- n)) rows.

(** A stable sort: [before y x] says that [y] must come strictly before [x];
    elements that are not strictly ordered keep their input order. Python's
    [sorted], [heapq.nlargest] and pandas' multi-column [sort_values] (a
    lexsort) are all stable. *)
Section StableSort.
Context {A : Type} (before : A -> A -> bool).

Fixpoint insert (x : A) (l : list A) : list A :=
  match l with
  | [] => [x]
  | y :: l' => if before y x then y :: insert x l' else x :: l
  end.

Definition stable_sort (l : list A) : list A := fold_right insert [] l.
End StableSort.

(** Descending order on a float column, NaN last. *)
Definition year_gt (a b : option Z) : bool :=
  match a, b with
  | Some x, Some y => y <? x
  | Some _, None => true
  | None, _ => false
  end.

(** The order of [sort_values(['popularity_score', 'release_year'],
    ascending=[False, False])]. *)
Definition ranks_before (a b : title_record) : bool :=
  match Qcompare (popularity_score a) (popularity_score b) with
  | Gt => true
  | Lt => false
  | Eq => year_gt (release_year a) (release_year b)
  end.

Definition sort_values (rows : list title_record) : list title_record :=
  stable_sort ranks_before rows.

(** ** Recommendation engine: [get_smart_recommendations] *)

Definition contains_filter (field : title_record -> string) (arg : option string)
    (filtered : list title_record) : outcome (list title_record) :=
  if truthy arg then
    mask <- str_contains (map field filtered) (arg_text arg) false ;;
    Returns (select filtered mask)
  else Returns filtered.

Definition get_smart_recommendations (netflix_data : catalog)
    (genre director_arg country_arg : option string) (content_type : string)
    (count min_year : Z) : outcome (list title_record) :=
  let filtered := netflix_data in
  filtered <- contains_filter listed_in genre filtered ;;
  filtered <- contains_filter director director_arg filtered ;;
  filtered <- contains_filter country country_arg filtered ;;
  let filtered :=
    if negb (String.eqb content_type "Both")
    then filter (fun r => String.eqb (type r) content_type) filtered
    else filtered in
  let filtered := filter (fun r => year_ge (release_year r) min_year) filtered in
  match filtered with
  | _ :: _ => Returns (head count (sort_values filtered))
  | [] => Returns filtered
  end.

(** ** Tokens of a multi-valued field *)

(** ASCII whitespace of [str.strip()]. *)
Definition is_space (c : ascii) : bool :=
  let n := nat_of_ascii c in
  (((9 <=? n) && (n <=? 13)) || ((28 <=? n) && (n <=? 32)))%nat.

Fixpoint lstrip (s : string) : string :=
  match s with
  | EmptyString => EmptyString
  | String c rest => if is_space c then lstrip rest else s
  end.

Fixpoint rstrip (s : string) : string :=
  match s with
  | EmptyString => EmptyString
  | String c rest =>
      match rstrip rest with
      | EmptyString => if is_space c then EmptyString else String c EmptyString
      | kept => String c kept
      end
  end.

Definition strip (s : string) : string := rstrip (lstrip s).

(** [s.split(',')]: never empty; [''.split(',')] is [['']]. *)
Fixpoint split_comma (s : string) : list string :=
  match s with
  | EmptyString => [EmptyString]
  | String c rest =>
      if Ascii.eqb c "," then EmptyString :: split_comma rest
      else match split_comma rest with
           | [] => [String c EmptyString]
           | t :: ts => String c t :: ts
           end
  end.

(** [[g.strip() for g in s.split(',')]] *)
Definition tokens (s : string) : list string := map strip (split_comma s).

(** ** [collections.Counter]: counts by key, keys in first-seen order *)

Fixpoint counter_add (t : string) (c : list (string * nat)) : list (string * nat) :=
  match c with
  | [] => [(t, 1%nat)]
  | (k, n) :: rest =>
      if String.eqb k t then (k, S n) :: rest else (k, n) :: counter_add t rest
  end.

Definition Counter (l : list string) : list (string * nat) :=
  fold_left (fun c t => counter_add t c) l [].

(** [Counter.most_common(n)]: by count, largest first, ties in first-seen
    order. *)
Definition most_common (n : nat) (c : list (string * nat)) : list (string * nat) :=
  firstn n (stable_sort (fun y x => (snd x <? snd y)%nat) c).

(** [sorted(l)] on strings. *)
Definition sorted (l : list string) : list string :=
  stable_sort String.ltb l.

(** ** Option indexer: [get_dropdown_options] *)

Record dropdown_options : Type := mkOptions {
  genres : list string;
  directors : list string;
  countries : list string
}.

(** The loop [for v in column: if v: all.extend(tokens)]. *)
Definition all_tokens (field : title_record -> string) (data : catalog)
    : list string :=
  flat_map (fun r => if negb (String.eqb (field r) "") then tokens (field r) else []) data.

Definition popular (threshold : nat) (all : list string) : list string :=
  map fst (filter (fun dc => (threshold <? snd dc)%nat) (Counter all)).

Definition get_dropdown_options (netflix_data : catalog) : dropdown_options :=
  let all_genres := all_tokens listed_in netflix_data in
  let unique_genres := sorted (nodup string_dec all_genres) in
  let all_directors := all_tokens director netflix_data in
  let popular_directors := popular 1 all_directors in
  let all_countries := all_tokens country netflix_data in
  let popular_countries := popular 5 all_countries in
  {| genres := "" :: unique_genres;
     directors := "" :: sorted popular_directors;
     countries := "" :: sorted popular_countries |}.

(** ** Aggregate analyzer: [analyze_netflix_data]

    The [year_distribution] entry is given apart, further down. *)

Record analysis : Type := mkAnalysis {
  total_titles : nat;
  movies : nat;
  tv_shows : nat;
  top_genres : list (string * nat);
  top_countries : list (string * nat)
}.

(** The loop [for v in column: all.extend(tokens)], with no test on [v]. *)
Definition every_token (field : title_record -> string) (data : catalog)
    : list string :=
  flat_map (fun r => tokens (field r)) data.

Definition analyze_netflix_data (data : catalog) : analysis :=
  {| total_titles := length data;
     movies := length (filter (fun r => String.eqb (type r) "Movie") data);
     tv_shows := length (filter (fun r => String.eqb (type r) "TV Show") data);
     top_genres := most_common 10 (Counter (every_token listed_in data));
     top_countries := most_common 10 (Counter (every_token country data)) |}.

(** ** The specification's reading of a multi-valued field

    "Split each multi-valued field on comma, trim whitespace, tally": the
    names a field lists, written apart from the loops of the code (on the
    characters of the field, cutting at the commas, trimming from both
    ends), and the number of records that list a name. *)







(** ** The specification's reading of the filter *)

Fixpoint starts_with (p s : list ascii) : bool :=
  match p, s with
  | [], _ => true
  | _ :: _, [] => false
  | a :: p', b :: s' => Ascii.eqb a b && starts_with p' s'
  end.

Fixpoint is_substring (p s : list ascii) : bool :=
  starts_with p s ||
  match s with
  | [] => false
  | _ :: s' => is_substring p s'
  end.

(** "[needle] is a case-insensitive plain substring of [hay]":
    [needle.lower() in hay.lower()]. *)
Definition contains_ci (needle hay : string) : bool :=
  is_substring (map Re.lower (list_ascii_of_string needle))
               (map Re.lower (list_ascii_of_string hay)).


(** ** Sample data: the two-title catalog of the specification's examples *)

Definition title_A : title_record :=
  mkTitle "A" "Movie" (Some 2019) "Comedies,Dramas" "X" "US".

Definition title_B : title_record :=
  mkTitle "B" "Movie" (Some 2010) "Dramas" "Y" "US".

Definition sample_catalog : catalog := [title_A; title_B].

(** ** Vocabulary of the statements *)

(** A filter string with none of the characters [re] treats specially. *)
Definition plain_pattern (pat : string) : bool :=
  forallb (fun c => negb (Re.is_special c)) (list_ascii_of_string pat).

Definition plain_arg (arg : option string) : Prop :=
  plain_pattern (arg_text arg) = true.

(** The compiled form of an optional filter argument: [None] when the
    argument is absent or empty, so that no filter is applied. *)
Definition compile_arg (arg : option string) : outcome (option Re.regex) :=
  if truthy arg then
    rx <- Re.compile (arg_text arg) ;; Returns (Some rx)
  else Returns None.

Definition field_ok (rx : option Re.regex) (s : string) : bool :=
  match rx with
  | None => true
  | Some r => Re.search true r (list_ascii_of_string s)
  end.

(** The predicate filter of the engine, once its patterns are compiled. *)
Definition passes (rg rd rc : option Re.regex) (content_type : string)
    (min_year : Z) (r : title_record) : bool :=
  field_ok rg (listed_in r)
  && field_ok rd (director r)
  && field_ok rc (country r)
  && (String.eqb content_type "Both" || String.eqb (type r) content_type)
  && year_ge (release_year r) min_year.

(** The recency contribution the three additions amount to. *)
Definition cumulative_bonus (y : Z) : Z :=
  if 2018 <=? y then 6
  else if 2015 <=? y then 3
  else if 2010 <=? y then 1
  else 0.

(** Rows sharing both sort keys. *)
Definition has_keys (score : Q) (year : option Z) (r : title_record) : bool :=
  Qeq_bool (popularity_score r) score
  && match release_year r, year with
     | Some a, Some b => a =? b
     | None, None => true
     | _, _ => false
     end.

(** [l1] is [l2] with some elements left out: same elements, same order. *)
Inductive subseq {A : Type} : list A -> list A -> Prop :=
| subseq_nil : subseq [] []
| subseq_skip x l1 l2 : subseq l1 l2 -> subseq l1 (x :: l2)
| subseq_keep x l1 l2 : subseq l1 l2 -> subseq (x :: l1) (x :: l2).

(** [a] may stand before [b] in a ranking by [popularity_score] descending,
    then [release_year] descending: [a] has the larger score, or the two
    scores are equal and the year of [a] is not the smaller one. This is
    stated on the two columns, not through the comparator of [sort_values]. *)
Definition score_then_year (a b : title_record) : Prop :=
  (popularity_score b < popularity_score a)%Q
  \/ ((popularity_score b == popularity_score a)%Q
      /\ exists ya yb,
           release_year a = Some ya /\ release_year b = Some yb /\ yb <= ya).

(** Every row may stand before all the rows that follow it. *)
Definition ranked (l : list title_record) : Prop :=
  StronglySorted score_then_year l.

(** The number of rows whose field is the empty string. *)
Definition empty_fields (field : title_record -> string) (data : catalog) : nat :=
  length (filter (fun r => String.eqb (field r) "") data).

(** The empty tokens that come from the non-empty fields (a trailing,
    leading or doubled comma, a blank field). *)
Definition stray_empty_tokens (field : title_record -> string) (data : catalog)
    : nat :=
  count_occ string_dec (all_tokens field data) "".

(** [counter[t]]: the count of a key, 0 when it is missing. *)
Fixpoint counter_get (t : string) (c : list (string * nat)) : nat :=
  match c with
  | [] => 0%nat
  | (k, n) :: rest => if String.eqb k t then n else counter_get t rest
  end.

(** A tally holds each key once, with a positive count. *)
Definition counter_wf (c : list (string * nat)) : Prop :=
  NoDup (map fst c) /\ Forall (fun kn => (0 < snd kn)%nat) c.

(** Further sample titles: one with no genre and no country, one whose
    fields end in a comma, one with a parenthesis in its genre. *)
Definition title_U : title_record :=
  mkTitle "U" "Movie" (Some 2000) "" "" "".

Definition title_S : title_record :=
  mkTitle "S" "TV Show" (Some 2005) "Dramas," "Z" "France,".


(** A title that ties with "B" on score and year, and one whose director is
    listed twice. *)
Definition title_C : title_record :=
  mkTitle "C" "TV Show" (Some 2010) "Comedies" "W" "UK".



(** ** Presentation: [get_and_display_recommendations]

    The Streamlit calls of the function, in the order they are made. A
    constructor stands for one call (or one fixed run of calls) and carries
    the values interpolated in its text. The [rating] and [description]
    columns are not part of [title_record]; the two calls that show them are
    left out of a card. *)
Inductive st_call : Type :=
| st_warning_no_criteria
    (* st.warning("Please select at least one search criteria ...") *)
| st_error_no_recommendations
    (* st.error("No recommendations found ...") and the subheader
       "Applied Filters:" *)
| st_write_applied (label value : string)
    (* st.write(f"* **{label}:** {value}") *)
| st_write_content_type (content_type : string)
| st_write_min_year (min_year : Z)
| st_write_try
    (* the four st.write of the "Try:" advice *)
| st_success_found (found : nat) (filter_text : string)
    (* st.success(f"Found {found} recommendations for {filter_text}!") *)
| st_markdown_title (idx : nat) (movie_title : string)
| st_write_details (kind : string) (year : option Z) (shown : list string)
    (* the type and year, then the director and the country when set *)
| st_write_genres (genres_text : string)
| st_metric_popularity (score : Q)
| st_success_year (year : option Z) (min_year : Z)
    (* st.success(f"{year} >= {min_year}") *)
| st_error_year (year : option Z) (min_year : Z)
    (* st.error(f"{year} < {min_year}") *)
| st_divider.

(** Truthiness of a string: [''] is false. *)
Definition nonempty (s : string) : bool := negb (String.eqb s "").

(** [x if x else None] *)
Definition or_none (s : string) : option string :=
  if nonempty s then Some s else None.

(** [[f"label '{value}'"]] when [value] is set, nothing otherwise. *)
Definition applied (label value : string) : list string :=
  if nonempty value
  then [String.append label (String.append " '" (String.append value "'"))]
  else [].

(** The calls of one result card; [idx] counts from 1. *)
Definition card (min_year : Z) (idx : nat) (movie : title_record) : list st_call :=
  [ st_markdown_title idx (title movie);
    st_write_details (type movie) (release_year movie)
      ((if nonempty (director movie) then [director movie] else [])
       ++ (if nonempty (country movie) then [country movie] else []))%list;
    st_write_genres (listed_in movie);
    st_metric_popularity (popularity_score movie);
    (if year_ge (release_year movie) min_year
     then st_success_year (release_year movie) min_year
     else st_error_year (release_year movie) min_year);
    st_divider ].

(** [for idx, (_, movie) in enumerate(recommendations.iterrows(), 1)] *)
Fixpoint cards (min_year : Z) (idx : nat) (rows : list title_record)
    : list st_call :=
  match rows with
  | [] => []
  | movie :: rest => (card min_year idx movie ++ cards min_year (S idx) rest)%list
  end.

Definition get_and_display_recommendations (netflix_data : catalog)
    (genre director_sel country_sel content_type : string)
    (num_recommendations min_year : Z) : outcome (list st_call) :=
  let genre_param := or_none genre in
  let director_param := or_none director_sel in
  let country_param := or_none country_sel in
  if negb (truthy genre_param || truthy director_param || truthy country_param)
  then Returns [st_warning_no_criteria]
  else
    recommendations <-
      get_smart_recommendations netflix_data genre_param director_param
        country_param content_type num_recommendations min_year ;;
    match recommendations with
    | [] =>
        Returns
          ([st_error_no_recommendations]
           ++ (if nonempty genre then [st_write_applied "Genre" genre] else [])
           ++ (if nonempty director_sel
               then [st_write_applied "Director" director_sel] else [])
           ++ (if nonempty country_sel
               then [st_write_applied "Country" country_sel] else [])
           ++ [st_write_content_type content_type;
               st_write_min_year min_year;
               st_write_try])%list
    | _ :: _ =>
        let applied_filters :=
          (applied "genre" genre ++ applied "director" director_sel
           ++ applied "country" country_sel)%list in
        let filter_text :=
          match applied_filters with
          | [] => "your criteria"
          | _ :: _ => String.concat ", " applied_filters
          end in
        Returns
          (st_success_found (length recommendations) filter_text
           :: cards min_year 1 recommendations)
    end.

(** ** Year histogram: [data['release_year'].value_counts().sort_index()] *)

Fixpoint year_add (y : Z) (c : list (Z * nat)) : list (Z * nat) :=
  match c with
  | [] => [(y, 1%nat)]
  | (k, n) :: rest =>
      if k =? y then (k, S n) :: rest else (k, n) :: year_add y rest
  end.

(** The tally of the known years, NaN dropped, by decreasing count as
    [value_counts] gives it. *)
Definition value_counts (col : list (option Z)) : list (Z * nat) :=
  stable_sort (fun a b => (snd b <? snd a)%nat)
    (fold_left (fun c y => match y with
                           | Some v => year_add v c
                           | None => c
                           end) col []).

(** [sort_index()]: by year, ascending. *)
Definition sort_index (c : list (Z * nat)) : list (Z * nat) :=
  stable_sort (fun a b => fst a <? fst b) c.

Definition year_distribution (data : catalog) : list (Z * nat) :=
  sort_index (value_counts (map release_year data)).

(** The count stored for a year, 0 when it is missing. *)
Fixpoint year_get (y : Z) (c : list (Z * nat)) : nat :=
  match c with
  | [] => 0%nat
  | (k, n) :: rest => if k =? y then n else year_get y rest
  end.

(** The number of rows released in a given year. *)
Definition released_in (y : Z) (data : catalog) : nat :=
  length (filter (fun r => match release_year r with
                            | Some v => v =? y
                            | None => false
                            end) data).

(** ** More vocabulary of the statements *)

(** Strings in increasing order, without repetition. *)
Definition ascending (l : list string) : Prop :=
  StronglySorted (fun a b => String.ltb a b = true) l.

(** Counts in decreasing order (ties allowed). *)
Definition by_count (l : list (string * nat)) : Prop :=
  StronglySorted (fun a b => (snd b <= snd a)%nat) l.

(** [needle] occurs in [hay] as a run of consecutive characters. *)
Definition infix_of (needle hay : string) : Prop :=
  exists pre post, hay = String.append pre (String.append needle post).

(** No whitespace at either end. *)
Definition trimmed (s : string) : Prop :=
  match s with
  | EmptyString => True
  | String c _ => is_space c = false
  end
  /\ match list_ascii_of_string s with
     | [] => True
     | c :: rest => is_space (last rest c) = false
     end.

Fixpoint has_comma (s : string) : bool :=
  match s with
  | EmptyString => false
  | String c rest => Ascii.eqb c "," || has_comma rest
  end.

(** The quick-select buttons of [recommendation_interface]. *)
Definition popular_genres : list string :=
  ["Comedies"; "Dramas"; "International Movies"; "Action & Adventure";
   "Independent Movies"; "Documentaries"; "Children & Family Movies";
   "Horror Movies"].

(** * Properties *)

(** ** The matcher decides the language of a pattern *)
Module ReFacts.
Import Re.
Local Open Scope list_scope.

Section Matcher.
Variable ic : bool.

Lemma nullable_matches (r : regex) :
  nullable r = true <-> matches ic r [].
Proof.
  split.
  - induction r; simpl; intro H; try discriminate.
    + constructor.
    + apply andb_true_iff in H as [H1 H2].
      change (@nil ascii) with (@nil ascii ++ []). constructor; auto.
    + apply orb_true_iff in H as [H | H];
        [apply MAltL | apply MAltR]; auto.
    + constructor.
  - intro H. remember (@nil ascii) as w eqn:Ew.
    induction H; simpl; try discriminate; auto.
    + apply app_eq_nil in Ew as [-> ->].
      rewrite IHmatches1, IHmatches2; auto.
    + rewrite IHmatches; auto.
    + rewrite IHmatches; auto using orb_true_r.
Qed.

Lemma matches_star_cons (r : regex) (d : ascii) (w : list ascii) :
  matches ic (Star r) (d :: w) ->
  exists w1 w2, w = w1 ++ w2 /\ matches ic r (d :: w1) /\ matches ic (Star r) w2.
Proof.
  intro H. remember (Star r) as R eqn:ER. remember (d :: w) as s eqn:Es.
  revert w Es. induction H; intros w0 Es; try discriminate.
  injection ER as ->.
  destruct w1 as [| a w1]; simpl in Es.
  - apply IHmatches2; auto.
  - injection Es as -> <-. exists w1, w2. auto.
Qed.

Lemma deriv_sound (d : ascii) (r : regex) :
  forall w, matches ic (deriv ic d r) w -> matches ic r (d :: w).
Proof.
  induction r; simpl; intros w H.
  - inversion H.
  - inversion H.
  - destruct (lit_match ic c d) eqn:E; inversion H; subst.
    constructor; auto.
  - destruct (any_match d) eqn:E; inversion H; subst.
    constructor; auto.
  - destruct (nullable r1) eqn:N.
    + inversion H as [| | | | ? ? ? H1 | ? ? ? H1 | |]; subst.
      * inversion H1; subst.
        change (d :: w1 ++ w2) with ((d :: w1) ++ w2). constructor; auto.
      * change (d :: w) with ([] ++ d :: w). constructor; auto.
        apply nullable_matches; auto.
    + inversion H; subst.
      change (d :: w1 ++ w2) with ((d :: w1) ++ w2). constructor; auto.
  - inversion H; subst; [apply MAltL | apply MAltR]; auto.
  - inversion H; subst.
    change (d :: w1 ++ w2) with ((d :: w1) ++ w2). constructor; auto.
Qed.

Lemma deriv_complete (d : ascii) (r : regex) :
  forall w, matches ic r (d :: w) -> matches ic (deriv ic d r) w.
Proof.
  induction r; simpl; intros w H.
  - inversion H.
  - inversion H.
  - inversion H as [| ? ? E | | | | | |]; subst. rewrite E. constructor.
  - inversion H as [| | ? E | | | | |]; subst. rewrite E. constructor.
  - inversion H as [| | | ? ? w1 w2 H1 H2 Er Ew | | | |]; subst.
    destruct w1 as [| a w1]; simpl in Ew.
    + subst w2. apply nullable_matches in H1. rewrite H1.
      apply MAltR; auto.
    + injection Ew as -> <-.
      assert (matches ic (Cat (deriv ic d r1) r2) (w1 ++ w2))
        by (constructor; auto).
      destruct (nullable r1); [apply MAltL |]; auto.
  - inversion H; subst; [apply MAltL | apply MAltR]; auto.
  - apply matches_star_cons in H as (w1 & w2 & -> & H1 & H2).
    constructor; auto.
Qed.

Lemma match_prefix_spec (s : list ascii) :
  forall r, match_prefix ic r s = true <->
            exists w rest, s = w ++ rest /\ matches ic r w.
Proof.
  induction s as [| d s IH]; intro r; simpl.
  - rewrite orb_false_r, nullable_matches. split.
    + intro H. exists [], []. auto.
    + intros (w & rest & E & H). symmetry in E.
      apply app_eq_nil in E as [-> _]. auto.
  - rewrite orb_true_iff, nullable_matches, IH. split.
    + intros [H | (w & rest & -> & H)].
      * exists [], (d :: s). auto.
      * exists (d :: w), rest. split; auto. apply deriv_sound; auto.
    + intros (w & rest & E & H). destruct w as [| a w]; simpl in E.
      * left; auto.
      * injection E as <- ->. right. exists w, rest. split; auto.
        apply deriv_complete; auto.
Qed.

(** [search] finds a match exactly when some substring of the text is in
    the language of the pattern. *)
Lemma search_spec (r : regex) (s : list ascii) :
  search ic r s = true <->
  exists pre w post, s = pre ++ w ++ post /\ matches ic r w.
Proof.
  induction s as [| d s IH]; simpl.
  - rewrite !orb_false_r, nullable_matches. split.
    + intro H. exists [], [], []. auto.
    + intros (pre & w & post & E & H). symmetry in E.
      apply app_eq_nil in E as [_ E]. apply app_eq_nil in E as [-> _]. auto.
  - rewrite orb_true_iff, IH.
    pose proof (match_prefix_spec (d :: s) r) as P. simpl in P. rewrite P.
    split.
    + intros [(w & rest & E & H) | (pre & w & post & -> & H)].
      * exists [], w, rest. auto.
      * exists (d :: pre), w, post. auto.
    + intros (pre & w & post & E & H). destruct pre as [| a pre]; simpl in E.
      * left. exists w, post. auto.
      * injection E as <- ->. right. exists pre, w, post. auto.
Qed.
End Matcher.

End ReFacts.

(** ** Patterns without special characters are literals *)
Module Literal.
Import Re.
Local Open Scope list_scope.

Lemma tokenize_plain (p : list ascii) :
  forallb (fun c => negb (is_special c)) p = true ->
  tokenize p = map TChar p.
Proof.
  induction p as [| c p IH]; simpl; intro H; auto.
  apply andb_true_iff in H as [Hc Hp].
  apply negb_true_iff in Hc.
  pose proof Hc as Hs. unfold is_special in Hs. simpl in Hs.
  repeat (apply orb_false_iff in Hs as [?E Hs]).
  rewrite E0, E, E5, E6, E7, E10, E4, E3, Hc, IH; auto.
Qed.

Lemma parse_literals (p : list ascii) :
  forall cur b,
    parse (map TChar p) cur [] b =
    Returns (close_frame (mkFrame (alts cur) (rev (map Lit p) ++ items cur))).
Proof.
  induction p as [| c p IH]; intros cur b; simpl.
  - destruct cur; reflexivity.
  - rewrite IH. simpl. rewrite <- app_assoc.
    destruct p; reflexivity.
Qed.

(** A plain pattern compiles to the sequence of its characters. *)
Lemma compile_plain (pat : string) :
  forallb (fun c => negb (is_special c)) (list_ascii_of_string pat) = true ->
  compile pat =
  Returns (Alt (cat_list (map Lit (list_ascii_of_string pat))) Void).
Proof.
  intro H. unfold compile. rewrite tokenize_plain by exact H.
  rewrite parse_literals. unfold close_frame, close_items. simpl.
  rewrite app_nil_r, rev_involutive. reflexivity.
Qed.

Lemma matches_literals (ic : bool) (p : list ascii) :
  forall w, matches ic (cat_list (map Lit p)) w <->
            Forall2 (fun c d => lit_match ic c d = true) p w.
Proof.
  induction p as [| c p IH]; intro w; simpl.
  - split; intro H; inversion H; constructor.
  - split; intro H.
    + inversion H as [| | | ? ? w1 w2 H1 H2 | | | |]; subst.
      inversion H1; subst. simpl. constructor; auto. apply IH; auto.
    + inversion H as [| ? d ? w' Hd Hw]; subst.
      change (d :: w') with ([d] ++ w'). constructor.
      * constructor; auto.
      * apply IH; auto.
Qed.

Lemma folded_equal (p w : list ascii) :
  Forall2 (fun c d => lit_match true c d = true) p w <->
  map lower w = map lower p.
Proof.
  split.
  - induction 1 as [| c d p w Hcd _ IH]; simpl; auto.
    unfold lit_match in Hcd. apply Ascii.eqb_eq in Hcd. congruence.
  - revert w. induction p as [| c p IH]; intros [| d w] E; simpl in E;
      try discriminate; constructor.
    + injection E as E1 _. unfold lit_match. apply Ascii.eqb_eq. auto.
    + apply IH. injection E; auto.
Qed.

Lemma starts_with_spec (p : list ascii) :
  forall s, starts_with p s = true <-> exists post, s = p ++ post.
Proof.
  induction p as [| a p IH]; intros s; simpl.
  - split; eauto.
  - destruct s as [| b s].
    + split; [discriminate | intros (post & E); discriminate].
    + rewrite andb_true_iff, Ascii.eqb_eq, IH. split.
      * intros (-> & post & ->). eauto.
      * intros (post & E). injection E as -> ->. eauto.
Qed.

Lemma is_substring_spec (p s : list ascii) :
  is_substring p s = true <-> exists pre post, s = pre ++ p ++ post.
Proof.
  induction s as [| b s IH]; simpl.
  - rewrite orb_false_r, starts_with_spec. split.
    + intros (post & E). exists [], post. auto.
    + intros (pre & post & E). symmetry in E.
      apply app_eq_nil in E as [-> E]. eauto.
  - rewrite orb_true_iff, IH, (starts_with_spec p (b :: s)). split.
    + intros [(post & E) | (pre & post & ->)].
      * exists [], post. auto.
      * exists (b :: pre), post. auto.
    + intros (pre & post & E). destruct pre as [| a pre]; simpl in E.
      * left. eauto.
      * injection E as <- ->. right. eauto.
Qed.

(** Searching for a literal pattern with [re.IGNORECASE] is looking for the
    folded pattern in the folded text. *)
Lemma search_literals (p s : list ascii) :
  search true (Alt (cat_list (map Lit p)) Void) s =
  is_substring (map lower p) (map lower s).
Proof.
  apply eq_true_iff_eq.
  rewrite ReFacts.search_spec, is_substring_spec. split.
  - intros (pre & w & post & -> & H).
    inversion H as [| | | | ? ? ? H1 | ? ? ? H1 | |]; subst; [| inversion H1].
    apply matches_literals, folded_equal in H1.
    exists (map lower pre), (map lower post).
    rewrite !map_app, H1. reflexivity.
  - intros (pre & post & E).
    apply map_eq_app in E as (s1 & s2 & -> & <- & E).
    apply map_eq_app in E as (w & s3 & -> & E & <-).
    exists s1, w, s3. split; auto.
    apply MAltL, matches_literals, folded_equal. auto.
Qed.

End Literal.

(** ** Lists: subsequences, prefixes and the stable sort *)
Module ListFacts.
Local Open Scope list_scope.

Section Subseq.
Context {A : Type}.

Lemma subseq_refl (l : list A) : subseq l l.
Proof. induction l; [apply subseq_nil | apply subseq_keep; auto]. Qed.

Lemma subseq_trans (l1 l2 l3 : list A) :
  subseq l1 l2 -> subseq l2 l3 -> subseq l1 l3.
Proof.
  intros H12 H23. revert l1 H12.
  induction H23 as [| x l2 l3 _ IH | x l2 l3 _ IH]; intros l1 H12.
  - exact H12.
  - apply subseq_skip. auto.
  - inversion H12; subst; [apply subseq_skip | apply subseq_keep]; auto.
Qed.

Lemma subseq_filter (p : A -> bool) (l : list A) : subseq (filter p l) l.
Proof.
  induction l as [| x l IH]; simpl; [apply subseq_nil |].
  destruct (p x); [apply subseq_keep | apply subseq_skip]; auto.
Qed.

Lemma subseq_firstn (k : nat) (l : list A) : subseq (firstn k l) l.
Proof.
  revert k. induction l as [| x l IH]; intros [| k]; simpl.
  - apply subseq_nil.
  - apply subseq_nil.
  - apply subseq_skip. clear IH.
    induction l; [apply subseq_nil | apply subseq_skip; auto].
  - apply subseq_keep. auto.
Qed.

Lemma filter_firstn (p : A -> bool) (k : nat) (l : list A) :
  exists k', filter p (firstn k l) = firstn k' (filter p l).
Proof.
  revert k. induction l as [| x l IH]; intros [| k]; simpl;
    try (exists 0%nat; reflexivity).
  destruct (IH k) as [k' E]. destruct (p x).
  - exists (S k'). simpl. congruence.
  - exists k'. exact E.
Qed.

Lemma In_firstn (z : A) (k : nat) (l : list A) :
  In z (firstn k l) -> In z l.
Proof.
  revert k. induction l as [| y l IH]; intros [| k]; simpl; try tauto.
  intros [H | H]; eauto.
Qed.

Lemma sorted_firstn (R : A -> A -> Prop) (k : nat) (l : list A) :
  StronglySorted R l -> StronglySorted R (firstn k l).
Proof.
  revert k. induction l as [| x l IH]; intros [| k] S; simpl;
    try constructor.
  - apply StronglySorted_inv in S as [S F]. auto.
  - apply StronglySorted_inv in S as [S F].
    rewrite Forall_forall in *. intros z Hz. eapply F, In_firstn, Hz.
Qed.
Lemma head_firstn (n : Z) (l : list A) : exists k, head n l = firstn k l.
Proof. unfold head. destruct (0 <=? n); eauto. Qed.

Lemma select_map (f : A -> bool) (l : list A) :
  select l (map f l) = filter f l.
Proof.
  induction l as [| x l IH]; simpl; auto. rewrite IH. reflexivity.
Qed.

Lemma filter_filter (p q : A -> bool) (l : list A) :
  filter q (filter p l) = filter (fun x => p x && q x) l.
Proof.
  induction l as [| x l IH]; simpl; auto.
  destruct (p x); simpl; rewrite IH; auto.
Qed.
End Subseq.

Section StableSortFacts.
Context {A : Type} (before : A -> A -> bool).

Lemma insert_perm (x : A) (l : list A) :
  Permutation (insert before x l) (x :: l).
Proof.
  induction l as [| y l IH]; simpl; auto.
  destruct (before y x); auto.
  rewrite IH. apply perm_swap.
Qed.

Lemma stable_sort_perm (l : list A) : Permutation (stable_sort before l) l.
Proof.
  induction l as [| x l IH]; simpl; auto.
  rewrite insert_perm. auto.
Qed.

Lemma stable_sort_In (x : A) (l : list A) :
  In x (stable_sort before l) <-> In x l.
Proof.
  split; apply Permutation_in;
    [| apply Permutation_sym]; apply stable_sort_perm.
Qed.

Lemma stable_sort_length (l : list A) :
  length (stable_sort before l) = length l.
Proof. apply Permutation_length, stable_sort_perm. Qed.

(** Stability: a class of elements that are not strictly ordered among
    themselves comes out in its input order. *)
Section Stability.
Variable p : A -> bool.
Hypothesis tied : forall a b, p a = true -> p b = true -> before a b = false.

Lemma filter_insert (x : A) (l : list A) :
  filter p (insert before x l) = filter p (x :: l).
Proof.
  induction l as [| y l IH]; simpl; auto.
  destruct (before y x) eqn:B; simpl; auto.
  rewrite IH. simpl.
  destruct (p y) eqn:Py, (p x) eqn:Px; auto.
  rewrite (tied y x Py Px) in B. discriminate.
Qed.

Lemma filter_stable_sort (l : list A) :
  filter p (stable_sort before l) = filter p l.
Proof.
  induction l as [| x l IH]; simpl; auto.
  rewrite filter_insert. simpl. rewrite IH. reflexivity.
Qed.
End Stability.

(** Sortedness, for a strict weak order. *)
Section Sortedness.
Hypothesis asym : forall a b, before a b = true -> before b a = false.
Hypothesis negtrans :
  forall a b c, before a b = false -> before b c = false -> before a c = false.

Lemma insert_sorted (x : A) (l : list A) :
  StronglySorted (fun a b => before b a = false) l ->
  StronglySorted (fun a b => before b a = false) (insert before x l).
Proof.
  induction l as [| y l IH]; simpl; intro S.
  - repeat constructor.
  - apply StronglySorted_inv in S as [S F].
    destruct (before y x) eqn:B.
    + constructor; auto.
      rewrite Forall_forall in *. intros z Hz.
      apply (Permutation_in _ (insert_perm x l)) in Hz as [<- | Hz].
      * apply asym; auto.
      * apply F; auto.
    + constructor; [constructor; auto |].
      constructor; auto.
      rewrite Forall_forall in *. intros z Hz.
      apply negtrans with y; auto.
Qed.

Lemma stable_sort_sorted (l : list A) :
  StronglySorted (fun a b => before b a = false) (stable_sort before l).
Proof.
  induction l as [| x l IH]; simpl; [constructor |].
  apply insert_sorted; auto.
Qed.
End Sortedness.

End StableSortFacts.

End ListFacts.

(** ** The ranking order is a strict weak order *)
Module Ranking.
Import ListFacts.

Lemma year_gt_asym (a b : option Z) : year_gt a b = true -> year_gt b a = false.
Proof.
  destruct a, b; simpl; auto. rewrite !Z.ltb_lt, Z.ltb_ge. lia.
Qed.

Lemma year_gt_negtrans (a b c : option Z) :
  year_gt a b = false -> year_gt b c = false -> year_gt a c = false.
Proof.
  destruct a, b, c; simpl; auto; try discriminate.
  rewrite !Z.ltb_ge. lia.
Qed.

Lemma ranks_before_asym (a b : title_record) :
  ranks_before a b = true -> ranks_before b a = false.
Proof.
  unfold ranks_before.
  rewrite <- (Qcompare_antisym (popularity_score a) (popularity_score b)).
  destruct (popularity_score a ?= popularity_score b)%Q; simpl;
    auto using year_gt_asym; discriminate.
Qed.

Lemma ranks_before_negtrans (a b c : title_record) :
  ranks_before a b = false -> ranks_before b c = false ->
  ranks_before a c = false.
Proof.
  unfold ranks_before.
  destruct (Qcompare_spec (popularity_score a) (popularity_score b)) as [E1 | L1 | G1];
    try discriminate;
  destruct (Qcompare_spec (popularity_score b) (popularity_score c)) as [E2 | L2 | G2];
    try discriminate; intros H1 H2.
  - rewrite (proj1 (Qeq_alt _ _)) by (rewrite E1; exact E2).
    eapply year_gt_negtrans; eauto.
  - rewrite (proj1 (Qlt_alt _ _)) by (rewrite E1; exact L2). reflexivity.
  - rewrite (proj1 (Qlt_alt _ _)) by (rewrite <- E2; exact L1). reflexivity.
  - rewrite (proj1 (Qlt_alt _ _)) by (eapply Qlt_trans; eauto). reflexivity.
Qed.

Lemma has_keys_tied (score : Q) (year : option Z) (a b : title_record) :
  has_keys score year a = true -> has_keys score year b = true ->
  ranks_before a b = false.
Proof.
  unfold has_keys, ranks_before. rewrite !andb_true_iff, !Qeq_bool_iff.
  intros [Ea Ya] [Eb Yb].
  rewrite (proj1 (Qeq_alt _ _)) by (rewrite Ea, Eb; reflexivity).
  destruct (release_year a), (release_year b), year; simpl;
    try discriminate; auto.
  apply Z.eqb_eq in Ya, Yb. apply Z.ltb_ge. lia.
Qed.

(** What the comparator of the sort says of two rows with known years. *)
Lemma not_before_score_then_year (a b : title_record) :
  release_year a <> None -> release_year b <> None ->
  ranks_before b a = false -> score_then_year a b.
Proof.
  unfold ranks_before, score_then_year. intros Ka Kb.
  destruct (Qcompare_spec (popularity_score b) (popularity_score a))
    as [E | L | G]; intro H; try discriminate.
  - right. split; [exact E |].
    destruct (release_year a) as [ya |]; [| congruence].
    destruct (release_year b) as [yb |]; [| congruence].
    exists ya, yb. repeat split. simpl in H. apply Z.ltb_ge in H. exact H.
  - left. exact L.
Qed.

Lemma sorted_weaken_in {A : Type} (R R' : A -> A -> Prop) (l : list A) :
  (forall a b, In a l -> In b l -> R a b -> R' a b) ->
  StronglySorted R l -> StronglySorted R' l.
Proof.
  intros W S. induction S as [| a l S IH F]; constructor.
  - apply IH. intros x y Hx Hy. apply W; right; assumption.
  - rewrite Forall_forall in *. intros b Hb.
    apply W; [left; reflexivity | right; exact Hb | apply F, Hb].
Qed.

Lemma sort_values_ranked (rows : list title_record) :
  (forall r, In r rows -> release_year r <> None) ->
  ranked (sort_values rows).
Proof.
  intro K. unfold ranked, sort_values.
  apply (sorted_weaken_in (fun a b => ranks_before b a = false)).
  - intros a b Ha Hb. apply not_before_score_then_year; apply K.
    + apply (proj1 (stable_sort_In ranks_before a rows)), Ha.
    + apply (proj1 (stable_sort_In ranks_before b rows)), Hb.
  - apply stable_sort_sorted;
      [exact ranks_before_asym | exact ranks_before_negtrans].
Qed.

Lemma sort_values_stable (score : Q) (year : option Z) (rows : list title_record) :
  filter (has_keys score year) (sort_values rows) =
  filter (has_keys score year) rows.
Proof. apply filter_stable_sort, has_keys_tied. Qed.

End Ranking.

(** ** The engine, once its patterns are compiled *)
Module Engine.
Import ListFacts.
Local Open Scope list_scope.

Lemma filter_all {A : Type} (l : list A) : filter (fun _ => true) l = l.
Proof. induction l; simpl; congruence. Qed.

Lemma head_nil {A : Type} (n : Z) : head n (@nil A) = [].
Proof. unfold head. destruct (0 <=? n); apply firstn_nil. Qed.

Lemma contains_filter_compiled (field : title_record -> string)
    (arg : option string) (rows : list title_record) (ro : option Re.regex) :
  compile_arg arg = Returns ro ->
  contains_filter field arg rows =
  Returns (filter (fun r => field_ok ro (field r)) rows).
Proof.
  unfold contains_filter, compile_arg, str_contains.
  destruct (truthy arg); simpl.
  - destruct (Re.compile (arg_text arg)); simpl; try discriminate.
    intro H. injection H as <-.
    rewrite map_map, select_map. reflexivity.
  - intro H. injection H as <-. rewrite filter_all. reflexivity.
Qed.

Lemma contains_filter_returns (field : title_record -> string)
    (arg : option string) (rows l : list title_record) :
  contains_filter field arg rows = Returns l ->
  exists ro, compile_arg arg = Returns ro.
Proof.
  unfold contains_filter, compile_arg, str_contains.
  destruct (truthy arg); simpl; [| eauto].
  destruct (Re.compile (arg_text arg)); simpl; eauto; try discriminate.
  destruct (map field rows); discriminate.
Qed.

Lemma filters_eq (rg rd rc : option Re.regex) (content_type : string)
    (min_year : Z) (data : catalog) :
  filter (fun r => year_ge (release_year r) min_year)
    (if negb (String.eqb content_type "Both")
     then filter (fun r => String.eqb (type r) content_type)
            (filter (fun r => field_ok rc (country r))
               (filter (fun r => field_ok rd (director r))
                  (filter (fun r => field_ok rg (listed_in r)) data)))
     else filter (fun r => field_ok rc (country r))
            (filter (fun r => field_ok rd (director r))
               (filter (fun r => field_ok rg (listed_in r)) data)))
  = filter (passes rg rd rc content_type min_year) data.
Proof.
  destruct (String.eqb content_type "Both") eqn:E; simpl;
    rewrite !filter_filter; apply filter_ext; intro r; unfold passes;
    rewrite E; simpl; rewrite ?andb_true_r, ?andb_assoc; reflexivity.
Qed.

(** With three patterns that compile, the call filters, ranks and cuts. *)
Lemma engine_compiled (data : catalog) (genre director_arg country_arg : option string)
    (content_type : string) (count min_year : Z) (rg rd rc : option Re.regex) :
  compile_arg genre = Returns rg ->
  compile_arg director_arg = Returns rd ->
  compile_arg country_arg = Returns rc ->
  get_smart_recommendations data genre director_arg country_arg content_type
    count min_year =
  Returns (head count
             (sort_values (filter (passes rg rd rc content_type min_year) data))).
Proof.
  intros Hg Hd Hc. unfold get_smart_recommendations.
  rewrite (contains_filter_compiled _ _ _ _ Hg). simpl.
  rewrite (contains_filter_compiled _ _ _ _ Hd). simpl.
  rewrite (contains_filter_compiled _ _ _ _ Hc). simpl.
  rewrite filters_eq.
  destruct (filter (passes rg rd rc content_type min_year) data); auto.
  simpl. rewrite head_nil. reflexivity.
Qed.

(** A call that returns has compiled its patterns. *)
Lemma engine_returns_compiled (data : catalog)
    (genre director_arg country_arg : option string)
    (content_type : string) (count min_year : Z) (l : list title_record) :
  get_smart_recommendations data genre director_arg country_arg content_type
    count min_year = Returns l ->
  exists rg rd rc,
    compile_arg genre = Returns rg
    /\ compile_arg director_arg = Returns rd
    /\ compile_arg country_arg = Returns rc
    /\ l = head count
             (sort_values (filter (passes rg rd rc content_type min_year) data)).
Proof.
  intro H. pose proof H as H'. revert H'.
  unfold get_smart_recommendations.
  destruct (contains_filter listed_in genre data) as [f1 | |] eqn:E1;
    simpl; try discriminate.
  destruct (contains_filter director director_arg f1) as [f2 | |] eqn:E2;
    simpl; try discriminate.
  destruct (contains_filter country country_arg f2) as [f3 | |] eqn:E3;
    simpl; try discriminate.
  intros _.
  apply contains_filter_returns in E1 as [rg Hg].
  apply contains_filter_returns in E2 as [rd Hd].
  apply contains_filter_returns in E3 as [rc Hc].
  exists rg, rd, rc. repeat split; auto.
  rewrite (engine_compiled _ _ _ _ _ _ _ _ _ _ Hg Hd Hc) in H.
  injection H as <-. reflexivity.
Qed.

Lemma engine_returns (data : catalog) (genre director_arg country_arg : option string)
    (content_type : string) (count min_year : Z) (l : list title_record) :
  get_smart_recommendations data genre director_arg country_arg content_type
    count min_year = Returns l ->
  exists rg rd rc k,
    l = firstn k
          (sort_values (filter (passes rg rd rc content_type min_year) data)).
Proof.
  intro H.
  apply engine_returns_compiled in H as (rg & rd & rc & _ & _ & _ & ->).
  destruct (head_firstn count
              (sort_values (filter (passes rg rd rc content_type min_year) data)))
    as [k E].
  exists rg, rd, rc, k. exact E.
Qed.

Lemma survivor_passes (data : catalog) (genre director_arg country_arg : option string)
    (content_type : string) (count min_year : Z) (l : list title_record)
    (r : title_record) :
  get_smart_recommendations data genre director_arg country_arg content_type
    count min_year = Returns l ->
  In r l ->
  exists rg rd rc, In r data /\ passes rg rd rc content_type min_year r = true.
Proof.
  intros H Hr. apply engine_returns in H as (rg & rd & rc & k & ->).
  apply In_firstn in Hr. apply (proj1 (stable_sort_In ranks_before _ _)) in Hr.
  apply filter_In in Hr as [Hd Hp]. exists rg, rd, rc. auto.
Qed.

Lemma passes_year (rg rd rc : option Re.regex) (content_type : string)
    (min_year : Z) (r : title_record) :
  passes rg rd rc content_type min_year r = true ->
  exists y, release_year r = Some y /\ min_year <= y.
Proof.
  unfold passes. rewrite !andb_true_iff. intros (_ & Hy).
  unfold year_ge in Hy. destruct (release_year r) as [y |]; try discriminate.
  exists y. split; auto. apply Z.leb_le; auto.
Qed.

(** A plain filter string compiles, and filters by literal containment. *)
Lemma compile_arg_plain (arg : option string) :
  plain_arg arg ->
  exists ro, compile_arg arg = Returns ro /\
             forall s, field_ok ro s =
                       negb (truthy arg) || contains_ci (arg_text arg) s.
Proof.
  unfold plain_arg, plain_pattern, compile_arg. intro H.
  destruct (truthy arg); simpl.
  - rewrite Literal.compile_plain by exact H. simpl.
    eexists; split; [reflexivity |]. intro s. simpl.
    apply Literal.search_literals.
  - exists None. auto.
Qed.


End Engine.

(** ** Tallies *)
Module Tally.
Import ListFacts.
Local Open Scope list_scope.

Lemma counter_get_add (t t' : string) (c : list (string * nat)) :
  counter_get t' (counter_add t c) =
  if String.eqb t t' then S (counter_get t' c) else counter_get t' c.
Proof.
  induction c as [| [k n] rest IH]; simpl.
  - destruct (String.eqb t t'); reflexivity.
  - destruct (String.eqb_spec k t) as [-> | Hkt]; simpl.
    + destruct (String.eqb t t'); reflexivity.
    + rewrite IH. destruct (String.eqb_spec k t') as [-> | Hkt']; auto.
      destruct (String.eqb_spec t t'); congruence.
Qed.

Lemma counter_get_fold (t : string) (l : list string) :
  forall c,
    counter_get t (fold_left (fun c x => counter_add x c) l c) =
    (counter_get t c + count_occ string_dec l t)%nat.
Proof.
  induction l as [| x l IH]; intro c; simpl; [lia |].
  rewrite IH, counter_get_add.
  destruct (String.eqb_spec x t) as [-> | Hx];
    destruct (string_dec _ t); try congruence; lia.
Qed.

Lemma counter_get_Counter (t : string) (l : list string) :
  counter_get t (Counter l) = count_occ string_dec l t.
Proof. unfold Counter. rewrite counter_get_fold. reflexivity. Qed.

Lemma counter_add_keys (t k : string) (c : list (string * nat)) :
  In k (map fst (counter_add t c)) <-> k = t \/ In k (map fst c).
Proof.
  induction c as [| [k' n] rest IH]; simpl.
  - intuition.
  - destruct (String.eqb_spec k' t) as [-> | Hk]; simpl.
    + intuition.
    + rewrite IH. intuition.
Qed.

Lemma counter_add_wf (t : string) (c : list (string * nat)) :
  counter_wf c -> counter_wf (counter_add t c).
Proof.
  unfold counter_wf.
  induction c as [| [k n] rest IH]; simpl; intros [ND POS].
  - split; repeat constructor. auto.
  - inversion ND as [| ? ? Hk ND']; subst.
    inversion POS as [| ? ? Hn POS']; subst. simpl in Hn.
    destruct (String.eqb_spec k t) as [-> | Hkt]; simpl.
    + split; constructor; simpl; auto.
    + destruct (IH (conj ND' POS')) as [ND2 POS2].
      split; constructor; auto.
      rewrite counter_add_keys. intros [-> | H]; auto.
Qed.

Lemma Counter_wf (l : list string) : counter_wf (Counter l).
Proof.
  unfold Counter.
  assert (G : forall c, counter_wf c ->
                        counter_wf (fold_left (fun c x => counter_add x c) l c)).
  { induction l as [| x l IH]; intros c W; simpl; auto.
    apply IH, counter_add_wf, W. }
  apply G. split; constructor.
Qed.

Lemma counter_In (t : string) (n : nat) (c : list (string * nat)) :
  counter_wf c ->
  (In (t, n) c <-> counter_get t c = n /\ (0 < n)%nat).
Proof.
  unfold counter_wf.
  induction c as [| [k m] rest IH]; simpl; intros [ND POS].
  - split; [tauto | lia].
  - inversion ND as [| ? ? Hk ND']; subst.
    inversion POS as [| ? ? Hm POS']; subst. simpl in Hm.
    specialize (IH (conj ND' POS')).
    destruct (String.eqb_spec k t) as [-> | Hkt].
    + split.
      * intros [E | H].
        -- injection E as ->. auto.
        -- exfalso. apply Hk. apply (in_map fst) in H. exact H.
      * intros [-> _]. auto.
    + rewrite <- IH. split.
      * intros [E | H]; [congruence | exact H].
      * auto.
Qed.

(** The entries of a tally are the tokens that occur, with their number of
    occurrences. *)
Lemma Counter_In (t : string) (n : nat) (l : list string) :
  In (t, n) (Counter l) <-> n = count_occ string_dec l t /\ (0 < n)%nat.
Proof.
  rewrite (counter_In t n (Counter l) (Counter_wf l)), counter_get_Counter.
  intuition.
Qed.

Lemma popular_In (threshold : nat) (t : string) (all : list string) :
  In t (popular threshold all) <->
  (threshold < count_occ string_dec all t)%nat.
Proof.
  unfold popular. rewrite in_map_iff. split.
  - intros ([k n] & E & H). simpl in E. subst k.
    apply filter_In in H as [H T]. simpl in T.
    apply Counter_In in H as [-> _]. apply Nat.ltb_lt. exact T.
  - intro H. exists (t, count_occ string_dec all t). split; auto.
    apply filter_In. split.
    + apply Counter_In. split; auto. lia.
    + simpl. apply Nat.ltb_lt. exact H.
Qed.

Lemma sorted_In (t : string) (l : list string) : In t (sorted l) <-> In t l.
Proof. apply stable_sort_In. Qed.

Lemma most_common_all (n : nat) (c : list (string * nat)) (e : string * nat) :
  (length c <= n)%nat -> In e c -> In e (most_common n c).
Proof.
  intros L H. unfold most_common.
  rewrite firstn_all2 by (rewrite stable_sort_length; exact L).
  apply stable_sort_In. exact H.
Qed.

(** The empty tokens of the analyzer: one for each empty field, and those of
    the non-empty fields. *)
Lemma empty_tokens_count (field : title_record -> string) (data : catalog) :
  count_occ string_dec (every_token field data) "" =
  (empty_fields field data + stray_empty_tokens field data)%nat.
Proof.
  unfold every_token, empty_fields, stray_empty_tokens, all_tokens.
  induction data as [| r data IH]; simpl; auto.
  rewrite !count_occ_app, IH.
  destruct (String.eqb_spec (field r) "") as [E | NE]; simpl.
  - rewrite E. simpl. lia.
  - lia.
Qed.

Lemma empty_token_tallied (field : title_record -> string) (data : catalog) :
  (0 < empty_fields field data)%nat ->
  In ("", (empty_fields field data + stray_empty_tokens field data)%nat)
     (Counter (every_token field data)).
Proof.
  intro H. apply Counter_In. rewrite empty_tokens_count. lia.
Qed.

End Tally.

(** ** The two readings of a field agree *)
Module Names.
Local Open Scope list_scope.








End Names.

(** * The specification, property by property *)

Local Open Scope list_scope.

(** ** Scoring *)

(** C1, as stated, fails: title "A" (2019) survives the query of the
    specification's example and its recency part is 6, where the tiers of
    the claim give 3. *)
Lemma recency_tiers_counterexample :
  get_smart_recommendations sample_catalog (Some "Dramas") None None "Both" 10 2000
  = Returns [title_A; title_B]
  /\ release_year title_A = Some 2019
  /\ recency_bonus (release_year title_A) = 6
  /\ spec_recency_bonus 2019 = 3.
Proof. repeat split; vm_compute; reflexivity. Qed.

(** C1 (amended): the recency contribution to [popularity_score] is
    cumulative: the three bonuses add up, giving 6 from 2018 on, else 3 from
    2015 on, else 1 from 2010 on, else 0. *)
Theorem recency_bonus_cumulative (r : title_record) (y : Z) :
  release_year r = Some y ->
  recency_bonus (release_year r) = cumulative_bonus y
  /\ (popularity_score r ==
      inject_Z (cumulative_bonus y) + inject_Z (genre_count r) * (1 # 2))%Q.
Proof.
  intro E.
  assert (B : recency_bonus (release_year r) = cumulative_bonus y).
  { rewrite E. unfold recency_bonus, cumulative_bonus, year_ge.
    destruct (2018 <=? y) eqn:E1, (2015 <=? y) eqn:E2, (2010 <=? y) eqn:E3;
      try reflexivity; apply Z.leb_le in E1 || apply Z.leb_gt in E1;
      apply Z.leb_le in E2 || apply Z.leb_gt in E2;
      apply Z.leb_le in E3 || apply Z.leb_gt in E3; lia. }
  split; [exact B |].
  unfold popularity_score. rewrite B. reflexivity.
Qed.

Lemma recency_bonus_cumulative_witness :
  recency_bonus (release_year title_A) = cumulative_bonus 2019
  /\ (popularity_score title_A ==
      inject_Z (cumulative_bonus 2019) + inject_Z (genre_count title_A) * (1 # 2))%Q.
Proof. apply (recency_bonus_cumulative title_A 2019). reflexivity. Defined.

(** C2, as stated, fails: a title with an empty [listed_in] survives an
    unfiltered query with [genre_count] 1, and half a point of score. *)
Lemma empty_listed_in_counterexample :
  get_smart_recommendations [title_U] None None None "Both" 10 1900
  = Returns [title_U]
  /\ listed_in title_U = ""
  /\ genre_count title_U = 1
  /\ (popularity_score title_U == 1 # 2)%Q.
Proof. repeat split; vm_compute; reflexivity. Qed.

(** C2 (amended): for every record whose [listed_in] is the empty string,
    [genre_count] is 1 (the number of commas plus one), so an empty
    [listed_in] contributes one half to [popularity_score]. *)
Theorem empty_listed_in_counts_one (r : title_record) :
  listed_in r = "" ->
  genre_count r = 1
  /\ (popularity_score r ==
      inject_Z (recency_bonus (release_year r)) + (1 # 2))%Q.
Proof.
  intro E. unfold popularity_score, genre_count. rewrite E. simpl.
  split; reflexivity.
Qed.

Lemma empty_listed_in_counts_one_witness :
  genre_count title_U = 1
  /\ (popularity_score title_U ==
      inject_Z (recency_bonus (release_year title_U)) + (1 # 2))%Q.
Proof. apply (empty_listed_in_counts_one title_U). reflexivity. Defined.

(** ** The predicate filter *)




(** ** Limits *)

(** C4, as stated, fails: limits 0 and -1 are not rejected; the filter and
    the ranking run, and -1 returns a scored row. *)
Lemma nonpositive_limit_counterexample :
  get_smart_recommendations sample_catalog (Some "Dramas") None None "Both" 0 2000
  = Returns []
  /\ get_smart_recommendations sample_catalog (Some "Dramas") None None "Both"
       (-1) 2000
     = Returns [title_A].
Proof. split; vm_compute; reflexivity. Qed.

(** C4 (amended): a limit <= 0 raises nothing. When the filter strings are
    valid patterns the call filters and ranks as usual and returns
    [head(limit)] of the ranked rows: no row for 0, all but the last
    [-limit] rows for a negative limit. *)
Theorem nonpositive_limit_returns (data : catalog)
    (genre director_arg country_arg : option string) (content_type : string)
    (count min_year : Z) (rg rd rc : option Re.regex) :
  compile_arg genre = Returns rg ->
  compile_arg director_arg = Returns rd ->
  compile_arg country_arg = Returns rc ->
  count <= 0 ->
  let rows := sort_values (filter (passes rg rd rc content_type min_year) data) in
  get_smart_recommendations data genre director_arg country_arg content_type
    count min_year =
  Returns (if count =? 0 then []
           else firstn (length rows - Z.to_nat (- count)) rows).
Proof.
  intros Cg Cd Cc Hc rows.
  rewrite (Engine.engine_compiled _ _ _ _ _ _ _ _ _ _ Cg Cd Cc).
  fold rows. unfold head.
  destruct (Z.eqb_spec count 0) as [-> | N]; simpl; auto.
  destruct (Z.leb_spec 0 count); [lia | reflexivity].
Qed.

Lemma nonpositive_limit_returns_witness :
  get_smart_recommendations sample_catalog None None None "Both" (-1) 2000 =
  Returns (firstn (length (sort_values
                             (filter (passes None None None "Both" 2000)
                                sample_catalog)) - Z.to_nat 1)
             (sort_values (filter (passes None None None "Both" 2000)
                             sample_catalog))).
Proof.
  apply (nonpositive_limit_returns sample_catalog None None None "Both" (-1) 2000
           None None None); try reflexivity. lia.
Defined.

(** C5: when the filter strings are valid patterns and the limit is not
    negative, the call returns min(limit, number of records passing the
    predicate filter) rows, hence at most limit rows. *)
Theorem result_length (data : catalog)
    (genre director_arg country_arg : option string) (content_type : string)
    (count min_year : Z) (rg rd rc : option Re.regex) :
  compile_arg genre = Returns rg ->
  compile_arg director_arg = Returns rd ->
  compile_arg country_arg = Returns rc ->
  0 <= count ->
  exists l,
    get_smart_recommendations data genre director_arg country_arg content_type
      count min_year = Returns l
    /\ Z.of_nat (length l) =
       Z.min count
         (Z.of_nat (length (filter (passes rg rd rc content_type min_year) data)))
    /\ Z.of_nat (length l) <= count.
Proof.
  intros Cg Cd Cc Hc.
  rewrite (Engine.engine_compiled _ _ _ _ _ _ _ _ _ _ Cg Cd Cc).
  eexists. split; [reflexivity |].
  unfold head, sort_values.
  destruct (Z.leb_spec 0 count); [| lia].
  rewrite length_firstn, ListFacts.stable_sort_length. lia.
Qed.

Lemma result_length_witness :
  exists l,
    get_smart_recommendations sample_catalog (Some "Dramas") None None "Both" 1 2000
    = Returns l
    /\ Z.of_nat (length l) =
       Z.min 1
         (Z.of_nat (length (filter
                              (passes (Some (Re.Alt
                                 (Re.cat_list (map Re.Lit
                                    (list_ascii_of_string "Dramas"))) Re.Void))
                                 None None "Both" 2000) sample_catalog)))
    /\ Z.of_nat (length l) <= 1.
Proof.
  apply (result_length sample_catalog (Some "Dramas") None None "Both" 1 2000);
    try reflexivity. lia.
Defined.

(** ** Years *)

(** C6: every returned record has a known [release_year], at least
    [min_year]; a record whose year is NaN is in no result. *)
Theorem result_years (data : catalog)
    (genre director_arg country_arg : option string) (content_type : string)
    (count min_year : Z) (l : list title_record) :
  get_smart_recommendations data genre director_arg country_arg content_type
    count min_year = Returns l ->
  Forall (fun r => release_year r <> None
                   /\ exists y, release_year r = Some y /\ min_year <= y) l.
Proof.
  intro H. apply Forall_forall. intros r Hr.
  destruct (Engine.survivor_passes _ _ _ _ _ _ _ _ _ H Hr)
    as (rg & rd & rc & _ & P).
  apply Engine.passes_year in P as (y & E & Hy).
  split; [congruence | eauto].
Qed.

Lemma result_years_witness :
  Forall (fun r => release_year r <> None
                   /\ exists y, release_year r = Some y /\ 2015 <= y)
         [title_A].
Proof.
  apply (result_years
           (mkTitle "N" "Movie" None "Dramas" "" "" :: sample_catalog)
           (Some "Dramas") None None "Both" 10 2015).
  vm_compute. reflexivity.
Defined.

(** ** Option indexer *)




(** ** Ranking *)

(** C8: the result is ordered by [popularity_score] descending, then
    [release_year] descending, and the sort is stable: the returned records
    that share a score and a year come in their catalog order. *)
Theorem ranking_stable (data : catalog)
    (genre director_arg country_arg : option string) (content_type : string)
    (count min_year : Z) (l : list title_record) :
  get_smart_recommendations data genre director_arg country_arg content_type
    count min_year = Returns l ->
  ranked l
  /\ forall (score : Q) (year : option Z),
       subseq (filter (has_keys score year) l) data.
Proof.
  intro H. apply Engine.engine_returns in H as (rg & rd & rc & k & ->).
  split.
  - apply ListFacts.sorted_firstn, Ranking.sort_values_ranked.
    intros r Hr. apply filter_In in Hr as [_ P].
    apply Engine.passes_year in P as (y & E & _). congruence.
  - intros score year.
    destruct (ListFacts.filter_firstn (has_keys score year) k
                (sort_values (filter (passes rg rd rc content_type min_year) data)))
      as [k' ->].
    rewrite Ranking.sort_values_stable.
    eapply ListFacts.subseq_trans; [apply ListFacts.subseq_firstn |].
    eapply ListFacts.subseq_trans; apply ListFacts.subseq_filter.
Qed.

Lemma ranking_stable_witness :
  ranked [title_A; title_C; title_B]
  /\ forall (score : Q) (year : option Z),
       subseq (filter (has_keys score year) [title_A; title_C; title_B])
              [title_C; title_A; title_B].
Proof.
  apply (ranking_stable [title_C; title_A; title_B] None None None
           "Both" 10 2000).
  vm_compute. reflexivity.
Defined.

(** ** Empty results *)

(** C9, as stated, fails: the genre ["("] is contained in the [listed_in]
    of no sample title, and the call does not return the empty sequence: it
    raises. *)
Lemma no_match_counterexample :
  contains_ci "(" (listed_in title_A) = false
  /\ contains_ci "(" (listed_in title_B) = false
  /\ exists msg,
       get_smart_recommendations sample_catalog (Some "(") None None "Both"
         10 1900 = Raises msg.
Proof.
  repeat split; try (vm_compute; reflexivity).
  eexists. vm_compute. reflexivity.
Qed.

(** C9 (amended): a genre string without special characters that is
    contained, whatever the case, in the [listed_in] of no record gives a
    normal, empty result: the call returns the empty sequence and raises
    nothing, whatever the catalog, the content type, the limit and the
    minimum year, the director and the country being absent or free of
    special characters too. *)
Theorem no_match_returns_empty (data : catalog) (genre : string)
    (director_arg country_arg : option string) (content_type : string)
    (count min_year : Z) :
  genre <> "" ->
  plain_pattern genre = true ->
  plain_arg director_arg ->
  plain_arg country_arg ->
  (forall r, In r data -> contains_ci genre (listed_in r) = false) ->
  get_smart_recommendations data (Some genre) director_arg country_arg
    content_type count min_year = Returns [].
Proof.
  intros Hg Pg Pd Pc Hn.
  destruct (Engine.compile_arg_plain (Some genre) Pg) as (rg & Cg & Fg).
  destruct (Engine.compile_arg_plain director_arg Pd) as (rd & Cd & _).
  destruct (Engine.compile_arg_plain country_arg Pc) as (rc & Cc & _).
  rewrite (Engine.engine_compiled _ _ _ _ _ _ _ _ _ _ Cg Cd Cc).
  assert (E : filter (passes rg rd rc content_type min_year) data = []).
  { clear Cg Cd Cc. induction data as [| r data IH]; simpl; auto.
    unfold passes at 1. rewrite Fg. cbn [arg_text truthy].
    rewrite (Hn r) by (left; reflexivity).
    destruct (String.eqb_spec genre ""); [contradiction |]. simpl.
    apply IH. intros r' Hr'. apply Hn. right. exact Hr'. }
  rewrite E. simpl. rewrite Engine.head_nil. reflexivity.
Qed.

Lemma no_match_returns_empty_witness :
  get_smart_recommendations sample_catalog (Some "Nonexistent") None None "Both"
    10 1900 = Returns [].
Proof.
  apply (no_match_returns_empty sample_catalog "Nonexistent" None None "Both"
           10 1900).
  - discriminate.
  - reflexivity.
  - reflexivity.
  - reflexivity.
  - intros r [<- | [<- | []]]; vm_compute; reflexivity.
Defined.

(** ** Aggregate analyzer *)

(** C10, as stated, fails: with one empty [listed_in] and one [listed_in]
    ending in a comma the tally holds the empty token twice, so it has no
    entry [("", 1)]; the same for the countries. *)
Lemma empty_token_counterexample :
  empty_fields listed_in [title_U; title_S] = 1%nat
  /\ Counter (every_token listed_in [title_U; title_S])
     = [("", 2%nat); ("Dramas", 1%nat)]
  /\ ~ In ("", 1%nat) (Counter (every_token listed_in [title_U; title_S]))
  /\ empty_fields country [title_U; title_S] = 1%nat
  /\ ~ In ("", 1%nat) (Counter (every_token country [title_U; title_S])).
Proof.
  repeat split; try (vm_compute; reflexivity);
    vm_compute; intros [H | [H | []]]; discriminate.
Qed.

(** C10 (amended): the analyzer does not skip empty fields: each yields one
    empty token. For every catalog with n > 0 records whose [listed_in] is
    empty, the genre tally has the entry [("", n + k)], where k counts the
    empty tokens of the non-empty fields (the tokens the option indexer
    also sees), and this entry is in [top_genres] when the tally has at
    most 10 entries; likewise for [country] and [top_countries]. *)
Theorem empty_fields_are_tallied (data : catalog) :
  ((0 < empty_fields listed_in data)%nat ->
   let entry := ("", (empty_fields listed_in data
                      + stray_empty_tokens listed_in data)%nat) in
   In entry (Counter (every_token listed_in data))
   /\ ((length (Counter (every_token listed_in data)) <= 10)%nat ->
       In entry (top_genres (analyze_netflix_data data))))
  /\ ((0 < empty_fields country data)%nat ->
      let entry := ("", (empty_fields country data
                         + stray_empty_tokens country data)%nat) in
      In entry (Counter (every_token country data))
      /\ ((length (Counter (every_token country data)) <= 10)%nat ->
          In entry (top_countries (analyze_netflix_data data)))).
Proof.
  split; intros H entry;
    (split; [apply Tally.empty_token_tallied; exact H |]);
    intro L; simpl; apply Tally.most_common_all; auto;
    apply Tally.empty_token_tallied; exact H.
Qed.

Lemma empty_fields_are_tallied_witness :
  (In ("", 2%nat) (Counter (every_token listed_in [title_U; title_S]))
   /\ In ("", 2%nat) (top_genres (analyze_netflix_data [title_U; title_S])))
  /\ (In ("", 2%nat) (Counter (every_token country [title_U; title_S]))
      /\ In ("", 2%nat) (top_countries (analyze_netflix_data [title_U; title_S]))).
Proof.
  destruct (empty_fields_are_tallied [title_U; title_S]) as [G C].
  split.
  - destruct (G ltac:(vm_compute; lia)) as [G1 G2].
    split; [exact G1 | apply G2; vm_compute; lia].
  - destruct (C ltac:(vm_compute; lia)) as [C1 C2].
    split; [exact C1 | apply C2; vm_compute; lia].
Defined.

(** * Further properties of the code *)

(** ** Scoring *)

(** X1: the recency bonus grows with the year: a newer title never gets a
    smaller bonus than an older one, and the bonus stays between 0 and 6. *)
Theorem recency_bonus_monotone (y1 y2 : Z) :
  y1 <= y2 ->
  0 <= recency_bonus (Some y1)
  /\ recency_bonus (Some y1) <= recency_bonus (Some y2)
  /\ recency_bonus (Some y2) <= 6.
Proof.
  intro H. unfold recency_bonus, year_ge.
  destruct (Z.leb_spec 2018 y1), (Z.leb_spec 2015 y1), (Z.leb_spec 2010 y1),
    (Z.leb_spec 2018 y2), (Z.leb_spec 2015 y2), (Z.leb_spec 2010 y2); lia.
Qed.

Lemma recency_bonus_monotone_witness :
  0 <= recency_bonus (Some 2012)
  /\ recency_bonus (Some 2012) <= recency_bonus (Some 2016)
  /\ recency_bonus (Some 2016) <= 6.
Proof. apply (recency_bonus_monotone 2012 2016). lia. Defined.

Module Scoring.

Lemma str_count_comma_nonneg (s : string) : 0 <= str_count_comma s.
Proof.
  induction s as [| c s IH]; simpl; [lia |].
  destruct (Ascii.eqb c ","); lia.
Qed.

Lemma recency_bonus_nonneg (y : option Z) : 0 <= recency_bonus y.
Proof.
  unfold recency_bonus.
  destruct (year_ge y 2018), (year_ge y 2015), (year_ge y 2010); lia.
Qed.

Lemma split_comma_length (s : string) :
  Z.of_nat (length (split_comma s)) = str_count_comma s + 1.
Proof.
  induction s as [| c s IH]; [reflexivity |].
  pose proof (str_count_comma_nonneg s) as N.
  cbn [split_comma str_count_comma].
  destruct (Ascii.eqb c ",").
  - cbn [length]. lia.
  - destruct (split_comma s) as [| t ts]; cbn [length] in *; lia.
Qed.

End Scoring.

(** X2: every record scores at least one half: the bonus is never negative
    and [genre_count] is at least 1, whatever [listed_in] holds. *)
Theorem popularity_score_at_least_half (r : title_record) :
  1 <= genre_count r /\ (1 # 2 <= popularity_score r)%Q.
Proof.
  pose proof (Scoring.str_count_comma_nonneg (listed_in r)) as C.
  pose proof (Scoring.recency_bonus_nonneg (release_year r)) as B.
  unfold popularity_score, genre_count. split; [lia |].
  unfold Qle, Qplus, Qmult, inject_Z. simpl. lia.
Qed.

(** X3: [genre_count] is the number of tokens the indexer and the analyzer
    get from the same field: commas plus one is the length of
    [listed_in.split(',')]. *)
Theorem genre_count_is_token_count (r : title_record) :
  genre_count r = Z.of_nat (length (tokens (listed_in r))).
Proof.
  unfold genre_count, tokens. rewrite length_map, Scoring.split_comma_length.
  reflexivity.
Qed.

(** ** The engine *)
Module EngineMore.
Import ListFacts.
Local Open Scope list_scope.

Lemma filter_partition {A : Type} (p : A -> bool) (l : list A) :
  Permutation (filter p l ++ filter (fun x => negb (p x)) l) l.
Proof.
  induction l as [| x l IH]; simpl; auto.
  destruct (p x); simpl.
  - constructor. exact IH.
  - rewrite <- Permutation_middle. constructor. exact IH.
Qed.

Lemma passes_type (rg rd rc : option Re.regex) (content_type : string)
    (min_year : Z) (r : title_record) :
  passes rg rd rc content_type min_year r = true ->
  content_type <> "Both" -> type r = content_type.
Proof.
  unfold passes. rewrite !andb_true_iff, orb_true_iff.
  intros [[_ [H | H]] _] N; apply String.eqb_eq in H; congruence.
Qed.

Lemma passes_year_ge (rg rd rc : option Re.regex) (content_type : string)
    (min_year : Z) (r : title_record) :
  passes rg rd rc content_type min_year r = true ->
  year_ge (release_year r) min_year = true.
Proof. unfold passes. rewrite !andb_true_iff. tauto. Qed.

Lemma head_nonneg {A : Type} (n : Z) (l : list A) :
  0 <= n -> head n l = firstn (Z.to_nat n) l.
Proof. intro H. unfold head. destruct (Z.leb_spec 0 n); [reflexivity | lia]. Qed.

End EngineMore.

(** X4: a result is made of catalog rows, each used at most as often as the
    catalog holds it, and when a content type other than "Both" is asked
    for, every returned row has that type. *)
Theorem result_from_catalog (data : catalog)
    (genre director_arg country_arg : option string) (content_type : string)
    (count min_year : Z) (l : list title_record) :
  get_smart_recommendations data genre director_arg country_arg content_type
    count min_year = Returns l ->
  (exists dropped, Permutation (l ++ dropped) data)
  /\ (content_type <> "Both" -> Forall (fun r => type r = content_type) l).
Proof.
  intro H. split.
  - apply Engine.engine_returns in H as (rg & rd & rc & k & ->).
    set (p := passes rg rd rc content_type min_year).
    exists (skipn k (sort_values (filter p data))
            ++ filter (fun x => negb (p x)) data).
    rewrite app_assoc, firstn_skipn.
    rewrite (ListFacts.stable_sort_perm ranks_before (filter p data)).
    apply EngineMore.filter_partition.
  - intro N. apply Forall_forall. intros r Hr.
    destruct (Engine.survivor_passes _ _ _ _ _ _ _ _ _ H Hr)
      as (rg & rd & rc & _ & P).
    eapply EngineMore.passes_type; eauto.
Qed.

Lemma result_from_catalog_witness :
  (exists dropped, Permutation ([title_A] ++ dropped) [title_S; title_B; title_A])
  /\ ("Movie" <> "Both" -> Forall (fun r => type r = "Movie") [title_A]).
Proof.
  apply (result_from_catalog [title_S; title_B; title_A] (Some "Dramas") None None
           "Movie" 1 2000).
  vm_compute. reflexivity.
Defined.

(** X5: raising the limit only appends rows: for limits 0 <= c1 <= c2 the
    result for c1 is the first c1 rows of the result for c2. *)
Theorem smaller_limit_is_prefix (data : catalog)
    (genre director_arg country_arg : option string) (content_type : string)
    (c1 c2 min_year : Z) (l2 : list title_record) :
  0 <= c1 <= c2 ->
  get_smart_recommendations data genre director_arg country_arg content_type
    c2 min_year = Returns l2 ->
  get_smart_recommendations data genre director_arg country_arg content_type
    c1 min_year = Returns (firstn (Z.to_nat c1) l2).
Proof.
  intros Hc H.
  apply Engine.engine_returns_compiled in H
    as (rg & rd & rc & Cg & Cd & Cc & ->).
  rewrite (Engine.engine_compiled _ _ _ _ _ _ _ _ _ _ Cg Cd Cc).
  rewrite !EngineMore.head_nonneg by lia.
  rewrite firstn_firstn. do 2 f_equal. lia.
Qed.

Lemma smaller_limit_is_prefix_witness :
  get_smart_recommendations sample_catalog (Some "Dramas") None None "Both"
    1 2000 = Returns (firstn (Z.to_nat 1) [title_A; title_B]).
Proof.
  apply (smaller_limit_is_prefix sample_catalog (Some "Dramas") None None "Both"
           1 2 2000 [title_A; title_B]).
  - lia.
  - vm_compute. reflexivity.
Defined.

(** X6: with a limit that is at least the size of the catalog nothing is
    cut: the result is a rearrangement of exactly the rows that pass the
    predicate filter. *)
Theorem large_limit_returns_all (data : catalog)
    (genre director_arg country_arg : option string) (content_type : string)
    (count min_year : Z) (rg rd rc : option Re.regex) :
  compile_arg genre = Returns rg ->
  compile_arg director_arg = Returns rd ->
  compile_arg country_arg = Returns rc ->
  Z.of_nat (length data) <= count ->
  exists l,
    get_smart_recommendations data genre director_arg country_arg content_type
      count min_year = Returns l
    /\ Permutation l (filter (passes rg rd rc content_type min_year) data).
Proof.
  intros Cg Cd Cc Hc.
  rewrite (Engine.engine_compiled _ _ _ _ _ _ _ _ _ _ Cg Cd Cc).
  eexists. split; [reflexivity |].
  rewrite EngineMore.head_nonneg by lia.
  rewrite firstn_all2.
  - apply ListFacts.stable_sort_perm.
  - unfold sort_values. rewrite ListFacts.stable_sort_length.
    pose proof (filter_length_le (passes rg rd rc content_type min_year) data).
    lia.
Qed.

Lemma large_limit_returns_all_witness :
  exists l,
    get_smart_recommendations sample_catalog None None None "Movie" 5 2000
    = Returns l
    /\ Permutation l (filter (passes None None None "Movie" 2000) sample_catalog).
Proof.
  apply (large_limit_returns_all sample_catalog None None None "Movie" 5 2000);
    try reflexivity.
  simpl. lia.
Defined.

(** ** Strings: order, infixes and trimming *)
Module Text.
Local Open Scope list_scope.

Lemma compare_negtrans (a : string) :
  forall b c, String.compare a b <> Lt -> String.compare b c <> Lt ->
              String.compare a c <> Lt.
Proof.
  induction a as [| x a IH]; intros [| y b] [| z c]; simpl; try congruence.
  unfold Ascii.compare.
  destruct (N.compare_spec (N_of_ascii x) (N_of_ascii y));
    destruct (N.compare_spec (N_of_ascii y) (N_of_ascii z));
    destruct (N.compare_spec (N_of_ascii x) (N_of_ascii z));
    try congruence; try lia.
  apply IH.
Qed.

Lemma ltb_asym (a b : string) : String.ltb a b = true -> String.ltb b a = false.
Proof.
  unfold String.ltb. rewrite (String.compare_antisym b a).
  destruct (String.compare a b); simpl; congruence.
Qed.

Lemma ltb_negtrans (a b c : string) :
  String.ltb a b = false -> String.ltb b c = false -> String.ltb a c = false.
Proof.
  unfold String.ltb. intros H1 H2.
  pose proof (compare_negtrans a b c) as N.
  destruct (String.compare a b), (String.compare b c), (String.compare a c);
    try reflexivity; try discriminate; exfalso; apply N; congruence.
Qed.

Lemma ltb_total (a b : string) :
  String.ltb b a = false -> a <> b -> String.ltb a b = true.
Proof.
  unfold String.ltb. rewrite (String.compare_antisym b a). intros H N.
  destruct (String.compare a b) eqn:E; simpl in H; try discriminate; auto.
  apply String.compare_eq_iff in E. contradiction.
Qed.

(** [sorted] puts distinct strings in strictly increasing order. *)
Lemma sorted_ascending (l : list string) : NoDup l -> ascending (sorted l).
Proof.
  intro ND.
  assert (ND' : NoDup (sorted l)).
  { eapply Permutation_NoDup; [| exact ND].
    apply Permutation_sym, ListFacts.stable_sort_perm. }
  pose proof (ListFacts.stable_sort_sorted String.ltb ltb_asym ltb_negtrans l)
    as S.
  fold (sorted l) in S. unfold ascending.
  induction S as [| a l' S IH F]; constructor.
  - apply IH. inversion ND'; auto.
  - inversion ND' as [| ? ? Ha _]; subst.
    rewrite Forall_forall in *. intros b Hb.
    apply ltb_total; [apply F; exact Hb |].
    intros ->. contradiction.
Qed.

Lemma ascending_NoDup (l : list string) : ascending l -> NoDup l.
Proof.
  induction 1 as [| a l S IH F]; constructor; auto.
  intro Ha. rewrite Forall_forall in F. specialize (F a Ha).
  unfold String.ltb in F.
  assert (E : String.compare a a = Eq).
  { pose proof (String.compare_antisym a a) as Q.
    destruct (String.compare a a); simpl in Q; congruence. }
  rewrite E in F. discriminate.
Qed.

Lemma append_assoc (a b c : string) :
  String.append (String.append a b) c = String.append a (String.append b c).
Proof. induction a as [| x a IH]; simpl; congruence. Qed.

Lemma append_empty_r (a : string) : String.append a "" = a.
Proof. induction a as [| x a IH]; simpl; congruence. Qed.

Lemma infix_refl (s : string) : infix_of s s.
Proof. exists "", "". simpl. rewrite append_empty_r. reflexivity. Qed.

Lemma infix_trans (a b c : string) : infix_of a b -> infix_of b c -> infix_of a c.
Proof.
  intros (p1 & q1 & ->) (p2 & q2 & ->).
  exists (String.append p2 p1), (String.append q1 q2).
  rewrite !append_assoc. reflexivity.
Qed.

Lemma infix_cons (c : ascii) (a s : string) : infix_of a s -> infix_of a (String c s).
Proof. intros (p & q & ->). exists (String c p), q. reflexivity. Qed.

Lemma lstrip_infix (s : string) : infix_of (lstrip s) s.
Proof.
  induction s as [| c s IH]; simpl; [apply infix_refl |].
  destruct (is_space c); [apply infix_cons, IH | apply infix_refl].
Qed.

Lemma rstrip_prefix (s : string) : exists q, s = String.append (rstrip s) q.
Proof.
  induction s as [| c s [q IH]]; simpl; [exists ""; reflexivity |].
  destruct (rstrip s) as [| k ks] eqn:E.
  - destruct (is_space c).
    + exists (String c s). reflexivity.
    + exists s. simpl in *. congruence.
  - exists q. simpl in *. congruence.
Qed.

Lemma strip_infix (s : string) : infix_of (strip s) s.
Proof.
  unfold strip. eapply infix_trans; [| apply lstrip_infix].
  destruct (rstrip_prefix (lstrip s)) as [q E].
  exists "", q. exact E.
Qed.

Lemma split_comma_head (s : string) :
  exists t ts q, split_comma s = t :: ts /\ s = String.append t q.
Proof.
  induction s as [| c s (t & ts & q & E & Es)]; simpl.
  - exists "", [], "". auto.
  - destruct (Ascii.eqb c ",").
    + exists "", (split_comma s), (String c s). auto.
    + rewrite E. exists (String c t), ts, q. simpl. split; congruence.
Qed.

Lemma split_comma_infix (s : string) :
  forall p, In p (split_comma s) -> infix_of p s.
Proof.
  induction s as [| c s IH]; simpl; intros p H.
  - destruct H as [<- | []]. apply infix_refl.
  - destruct (Ascii.eqb c ",").
    + destruct H as [<- | H].
      * exists "", (String c s). reflexivity.
      * apply infix_cons, IH, H.
    + destruct (split_comma_head s) as (t & ts & q & E & Es).
      rewrite E in *. destruct H as [<- | H].
      * exists "", q. simpl. congruence.
      * apply infix_cons, IH. right. exact H.
Qed.

Lemma has_comma_append (a b : string) :
  has_comma (String.append a b) = has_comma a || has_comma b.
Proof.
  induction a as [| x a IH]; simpl; auto. rewrite IH, orb_assoc. reflexivity.
Qed.

Lemma infix_no_comma (a b : string) :
  infix_of a b -> has_comma b = false -> has_comma a = false.
Proof.
  intros (p & q & ->). rewrite !has_comma_append, !orb_false_iff. tauto.
Qed.

Lemma split_comma_no_comma (s : string) :
  forall p, In p (split_comma s) -> has_comma p = false.
Proof.
  induction s as [| c s IH]; simpl; intros p H.
  - destruct H as [<- | []]. reflexivity.
  - destruct (Ascii.eqb c ",") eqn:C.
    + destruct H as [<- | H]; auto.
    + destruct (split_comma_head s) as (t & ts & q & E & Es).
      rewrite E in *. destruct H as [<- | H].
      * simpl. rewrite C. apply IH. left. reflexivity.
      * apply IH. right. exact H.
Qed.

Lemma last_cons {A : Type} (k : A) (l : list A) (d : A) :
  last (k :: l) d = last l k.
Proof.
  revert k d. induction l as [| x l IH]; intros k d; auto.
  change (last (k :: x :: l) d) with (last (x :: l) d).
  rewrite (IH x d), (IH x k). reflexivity.
Qed.

Lemma rstrip_last (s : string) :
  match list_ascii_of_string (rstrip s) with
  | [] => True
  | c :: rest => is_space (last rest c) = false
  end.
Proof.
  induction s as [| c s IH]; [exact I |].
  cbn [rstrip]. destruct (rstrip s) as [| k ks].
  - destruct (is_space c) eqn:E; cbn; auto.
  - cbn [list_ascii_of_string] in *. rewrite last_cons. exact IH.
Qed.

Lemma lstrip_first (s : string) :
  match lstrip s with
  | EmptyString => True
  | String c _ => is_space c = false
  end.
Proof.
  induction s as [| c s IH]; simpl; auto.
  destruct (is_space c) eqn:E; auto.
Qed.

Lemma rstrip_first (s : string) :
  match s with
  | EmptyString => True
  | String c _ => is_space c = false
  end ->
  match rstrip s with
  | EmptyString => True
  | String c _ => is_space c = false
  end.
Proof.
  destruct s as [| c s]; simpl; auto. intro H.
  destruct (rstrip s); [rewrite H |]; exact H.
Qed.

Lemma strip_trimmed (s : string) : trimmed (strip s).
Proof.
  unfold trimmed, strip. split.
  - apply rstrip_first, lstrip_first.
  - apply rstrip_last.
Qed.

(** A token is a trimmed, comma-free run of characters of its field. *)
Lemma tokens_shape (s t : string) :
  In t (tokens s) -> infix_of t s /\ trimmed t /\ has_comma t = false.
Proof.
  unfold tokens. rewrite in_map_iff. intros (p & <- & H).
  split; [| split].
  - eapply infix_trans; [apply strip_infix | apply split_comma_infix, H].
  - apply strip_trimmed.
  - eapply infix_no_comma; [apply strip_infix |].
    apply (split_comma_no_comma s); exact H.
Qed.

Lemma list_ascii_append (a b : string) :
  list_ascii_of_string (String.append a b) =
  list_ascii_of_string a ++ list_ascii_of_string b.
Proof. induction a as [| x a IH]; simpl; congruence. Qed.

(** An infix is found by the literal, case-insensitive search. *)
Lemma infix_contains_ci (needle hay : string) :
  infix_of needle hay -> contains_ci needle hay = true.
Proof.
  intros (p & q & ->). unfold contains_ci.
  apply Literal.is_substring_spec.
  exists (map Re.lower (list_ascii_of_string p)),
         (map Re.lower (list_ascii_of_string q)).
  rewrite !list_ascii_append, !map_app. reflexivity.
Qed.

Lemma all_tokens_In (field : title_record -> string) (data : catalog) (t : string) :
  In t (all_tokens field data) <->
  exists r, In r data /\ field r <> "" /\ In t (tokens (field r)).
Proof.
  unfold all_tokens. rewrite in_flat_map. split.
  - intros (r & Hr & H). exists r. split; auto.
    destruct (String.eqb_spec (field r) ""); simpl in H; [contradiction | auto].
  - intros (r & Hr & N & H). exists r. split; auto.
    destruct (String.eqb_spec (field r) ""); simpl; [contradiction | auto].
Qed.

End Text.

(** ** Option indexer *)
Module Indexer.
Local Open Scope list_scope.

Lemma NoDup_keys_filter {K V : Type} (p : K * V -> bool) (c : list (K * V)) :
  NoDup (map fst c) -> NoDup (map fst (filter p c)).
Proof.
  induction c as [| e c IH]; simpl; intro ND; [constructor |].
  inversion ND as [| ? ? Hk ND']; subst.
  destruct (p e); simpl; auto.
  constructor; auto.
  intro H. apply Hk. apply in_map_iff in H as (e' & E & He').
  apply filter_In in He' as [He' _]. apply in_map_iff. eauto.
Qed.

Lemma popular_NoDup (threshold : nat) (all : list string) :
  NoDup (popular threshold all).
Proof.
  unfold popular. apply NoDup_keys_filter.
  destruct (Tally.Counter_wf all) as [ND _]. exact ND.
Qed.

Lemma popular_occurs (threshold : nat) (t : string) (all : list string) :
  In t (popular threshold all) -> In t all.
Proof.
  intro H. apply (proj1 (Tally.popular_In _ _ _)) in H.
  apply (count_occ_In string_dec). lia.
Qed.

(** What an option of a vocabulary is: the sentinel, or a token of a
    non-empty field of some row. *)
Lemma option_origin (data : catalog) (t : string) :
  (In t (genres (get_dropdown_options data)) ->
   t = "" \/ In t (all_tokens listed_in data))
  /\ (In t (directors (get_dropdown_options data)) ->
      t = "" \/ In t (all_tokens director data))
  /\ (In t (countries (get_dropdown_options data)) ->
      t = "" \/ In t (all_tokens country data)).
Proof.
  repeat split; simpl; (intros [E | H]; [left; auto | right]);
    apply (proj1 (Tally.sorted_In _ _)) in H.
  - apply (proj1 (nodup_In _ _ _)) in H. exact H.
  - eapply popular_occurs, H.
  - eapply popular_occurs, H.
Qed.

Lemma head_sorted_nonempty (count : Z) (x : title_record) (l : list title_record) :
  In x l -> 1 <= count ->
  exists r rest, head count (sort_values l) = r :: rest.
Proof.
  intros Hx Hc. rewrite EngineMore.head_nonneg by lia.
  assert (In x (sort_values l)) as Hs
    by (apply (ListFacts.stable_sort_In ranks_before); exact Hx).
  destruct (sort_values l) as [| r rest]; [contradiction |].
  destruct (Z.to_nat count) as [| n] eqn:E; [lia |].
  simpl. eauto.
Qed.

(** A plain token of a field, used as the filter on that field, selects the
    row it comes from. *)
Lemma token_selects (t s : string) :
  t <> "" -> plain_pattern t = true -> In t (tokens s) ->
  exists ro, compile_arg (Some t) = Returns ro /\ field_ok ro s = true.
Proof.
  intros Ht Hp Hin.
  destruct (Engine.compile_arg_plain (Some t) Hp) as (ro & C & F).
  exists ro. split; auto.
  rewrite F. simpl.
  apply Text.tokens_shape in Hin as (I & _).
  rewrite (Text.infix_contains_ci _ _ I). apply orb_true_r.
Qed.

End Indexer.

(** X8: the genres vocabulary is the empty "no filter" entry followed by the
    tokens of the non-empty [listed_in] fields, each once, in strictly
    increasing order. *)
Theorem genres_vocabulary (data : catalog) :
  exists g,
    genres (get_dropdown_options data) = "" :: g
    /\ ascending g
    /\ NoDup g
    /\ forall t, In t g <->
                 exists r, In r data /\ listed_in r <> ""
                           /\ In t (tokens (listed_in r)).
Proof.
  exists (sorted (nodup string_dec (all_tokens listed_in data))).
  assert (A : ascending (sorted (nodup string_dec (all_tokens listed_in data))))
    by apply Text.sorted_ascending, NoDup_nodup.
  repeat split; auto.
  - apply Text.ascending_NoDup, A.
  - intro H. apply (proj1 (Tally.sorted_In _ _)) in H.
    apply (proj1 (nodup_In _ _ _)) in H.
    apply (proj1 (Text.all_tokens_In _ _ _)). exact H.
  - intro H. apply (proj2 (Tally.sorted_In _ _)).
    apply (proj2 (nodup_In _ _ _)).
    apply (proj2 (Text.all_tokens_In _ _ _)). exact H.
Qed.

(** X9: the directors and countries vocabularies are the empty entry
    followed by the tokens above the threshold (more than 1, more than 5
    occurrences), each once, in strictly increasing order. *)
Theorem thresholded_vocabularies (data : catalog) :
  exists d c,
    directors (get_dropdown_options data) = "" :: d
    /\ countries (get_dropdown_options data) = "" :: c
    /\ ascending d /\ ascending c
    /\ (forall t, In t d <->
                  (1 < count_occ string_dec (all_tokens director data) t)%nat)
    /\ (forall t, In t c <->
                  (5 < count_occ string_dec (all_tokens country data) t)%nat).
Proof.
  exists (sorted (popular 1 (all_tokens director data))),
         (sorted (popular 5 (all_tokens country data))).
  repeat split;
    try (apply Text.sorted_ascending, Indexer.popular_NoDup);
    try (intro H; apply (proj1 (Tally.sorted_In _ _)) in H;
         apply (proj1 (Tally.popular_In _ _ _)) in H; exact H);
    try (intro H; apply (proj2 (Tally.sorted_In _ _));
         apply (proj2 (Tally.popular_In _ _ _)); exact H).
Qed.

(** X10: every entry of the three vocabularies is free of commas and of
    leading and trailing whitespace. *)
Theorem options_are_clean (data : catalog) (t : string) :
  In t (genres (get_dropdown_options data))
  \/ In t (directors (get_dropdown_options data))
  \/ In t (countries (get_dropdown_options data)) ->
  trimmed t /\ has_comma t = false.
Proof.
  destruct (Indexer.option_origin data t) as (G & D & C).
  assert (K : forall field, t = "" \/ In t (all_tokens field data) ->
                            trimmed t /\ has_comma t = false).
  { intros field [-> | H].
    - repeat split.
    - apply (proj1 (Text.all_tokens_In _ _ _)) in H as (r & _ & _ & H).
      apply Text.tokens_shape in H. tauto. }
  intros [H | [H | H]]; eauto.
Qed.

Lemma options_are_clean_witness :
  trimmed "Dramas" /\ has_comma "Dramas" = false.
Proof.
  apply (options_are_clean
           [mkTitle "W" "Movie" (Some 2001) " Dramas ,Comedies" "" ""] "Dramas").
  left. vm_compute. auto.
Defined.

(** X11: an option picked in a dropdown finds something. If the option is
    not the empty entry and has no special character, and the minimum year
    excludes no row, then the engine called with this option alone and a
    limit of at least 1 returns at least one row. *)
Theorem dropdown_option_finds_rows (data : catalog) (t : string)
    (count min_year : Z) :
  t <> "" ->
  plain_pattern t = true ->
  (forall r, In r data -> year_ge (release_year r) min_year = true) ->
  1 <= count ->
  (In t (genres (get_dropdown_options data)) ->
   exists r l, get_smart_recommendations data (Some t) None None "Both"
                 count min_year = Returns (r :: l))
  /\ (In t (directors (get_dropdown_options data)) ->
      exists r l, get_smart_recommendations data None (Some t) None "Both"
                    count min_year = Returns (r :: l))
  /\ (In t (countries (get_dropdown_options data)) ->
      exists r l, get_smart_recommendations data None None (Some t) "Both"
                    count min_year = Returns (r :: l)).
Proof.
  intros Ht Hp Hy Hc.
  destruct (Indexer.option_origin data t) as (G & D & C).
  repeat split; intro H;
    [apply G in H | apply D in H | apply C in H];
    destruct H as [E | H]; try contradiction;
    apply (proj1 (Text.all_tokens_In _ _ _)) in H as (r0 & Hr0 & _ & Hin);
    destruct (Indexer.token_selects t _ Ht Hp Hin) as (ro & Cro & F).
  - rewrite (Engine.engine_compiled data (Some t) None None "Both" count
               min_year ro None None Cro eq_refl eq_refl).
    destruct (Indexer.head_sorted_nonempty count r0
                (filter (passes ro None None "Both" min_year) data))
      as (r & l & E); auto.
    + apply filter_In. split; auto. unfold passes.
      rewrite F, (Hy r0 Hr0). reflexivity.
    + exists r, l. rewrite E. reflexivity.
  - rewrite (Engine.engine_compiled data None (Some t) None "Both" count
               min_year None ro None eq_refl Cro eq_refl).
    destruct (Indexer.head_sorted_nonempty count r0
                (filter (passes None ro None "Both" min_year) data))
      as (r & l & E); auto.
    + apply filter_In. split; auto. unfold passes.
      rewrite F, (Hy r0 Hr0). reflexivity.
    + exists r, l. rewrite E. reflexivity.
  - rewrite (Engine.engine_compiled data None None (Some t) "Both" count
               min_year None None ro eq_refl eq_refl Cro).
    destruct (Indexer.head_sorted_nonempty count r0
                (filter (passes None None ro "Both" min_year) data))
      as (r & l & E); auto.
    + apply filter_In. split; auto. unfold passes.
      rewrite F, (Hy r0 Hr0). reflexivity.
    + exists r, l. rewrite E. reflexivity.
Qed.

Lemma dropdown_option_finds_rows_witness :
  (In "Comedies" (genres (get_dropdown_options sample_catalog)) ->
   exists r l, get_smart_recommendations sample_catalog (Some "Comedies") None
                 None "Both" 3 2000 = Returns (r :: l))
  /\ (In "Comedies" (directors (get_dropdown_options sample_catalog)) ->
      exists r l, get_smart_recommendations sample_catalog None (Some "Comedies")
                    None "Both" 3 2000 = Returns (r :: l))
  /\ (In "Comedies" (countries (get_dropdown_options sample_catalog)) ->
      exists r l, get_smart_recommendations sample_catalog None None
                    (Some "Comedies") "Both" 3 2000 = Returns (r :: l)).
Proof.
  apply (dropdown_option_finds_rows sample_catalog "Comedies" 3 2000).
  - discriminate.
  - reflexivity.
  - intros r [<- | [<- | []]]; reflexivity.
  - lia.
Defined.

(** X12: on every token but the empty one the analyzer and the option
    indexer count alike: skipping the empty fields changes the count of the
    empty token only. *)
Theorem tallies_agree_on_tokens (field : title_record -> string) (data : catalog)
    (t : string) :
  t <> "" ->
  count_occ string_dec (every_token field data) t =
  count_occ string_dec (all_tokens field data) t.
Proof.
  intro Ht. unfold every_token, all_tokens.
  induction data as [| r data IH]; simpl; auto.
  rewrite !count_occ_app, IH. f_equal.
  destruct (String.eqb_spec (field r) "") as [E | N]; simpl; auto.
  rewrite E. simpl. destruct t; [contradiction | reflexivity].
Qed.

Lemma tallies_agree_on_tokens_witness :
  count_occ string_dec (every_token listed_in [title_U; title_S; title_B]) "Dramas" =
  count_occ string_dec (all_tokens listed_in [title_U; title_S; title_B]) "Dramas".
Proof.
  apply (tallies_agree_on_tokens listed_in [title_U; title_S; title_B] "Dramas").
  discriminate.
Defined.

(** ** Aggregate analyzer *)
Module Analyzer.
Local Open Scope list_scope.

Lemma sorted_weaken {A : Type} (R R' : A -> A -> Prop) (l : list A) :
  (forall a b, R a b -> R' a b) -> StronglySorted R l -> StronglySorted R' l.
Proof.
  intros W S. induction S as [| a l S IH F]; constructor; auto.
  eapply Forall_impl; [| exact F]. intros b. apply W.
Qed.

Lemma sorted_app_inv {A : Type} (R : A -> A -> Prop) (l1 l2 : list A) :
  StronglySorted R (l1 ++ l2) ->
  forall x y, In x l1 -> In y l2 -> R x y.
Proof.
  induction l1 as [| a l1 IH]; simpl; intros S x y Hx Hy; [contradiction |].
  apply StronglySorted_inv in S as [S F].
  destruct Hx as [<- | Hx]; [| eapply IH; eauto].
  rewrite Forall_forall in F. apply F, in_or_app. right. exact Hy.
Qed.

Lemma NoDup_firstn {A : Type} (n : nat) (l : list A) :
  NoDup l -> NoDup (firstn n l).
Proof.
  revert n. induction l as [| x l IH]; intros [| n] ND; simpl;
    try constructor.
  - inversion ND as [| ? ? Hx _]; subst.
    intro H. apply Hx. eapply ListFacts.In_firstn, H.
  - inversion ND; subst. auto.
Qed.

Section MostCommon.
Variable n : nat.
Variable c : list (string * nat).

Lemma count_order_sorted :
  StronglySorted (fun a b : string * nat => (snd b <= snd a)%nat)
    (stable_sort (fun y x : string * nat => (snd x <? snd y)%nat) c).
Proof.
  eapply sorted_weaken;
    [| apply (ListFacts.stable_sort_sorted
                (fun y x : string * nat => (snd x <? snd y)%nat))].
  - intros a b H. simpl in H. apply Nat.ltb_ge in H. exact H.
  - intros a b H. apply Nat.ltb_lt in H. apply Nat.ltb_ge. lia.
  - intros a b d H1 H2. apply Nat.ltb_ge in H1, H2. apply Nat.ltb_ge. lia.
Qed.

Lemma most_common_length : (length (most_common n c) <= n)%nat.
Proof. unfold most_common. apply firstn_le_length. Qed.

Lemma most_common_by_count : by_count (most_common n c).
Proof.
  unfold by_count, most_common.
  apply ListFacts.sorted_firstn, count_order_sorted.
Qed.

Lemma most_common_In (e : string * nat) : In e (most_common n c) -> In e c.
Proof.
  unfold most_common. intro H. apply ListFacts.In_firstn in H.
  eapply (proj1 (ListFacts.stable_sort_In _ _ _)), H.
Qed.

Lemma most_common_keys : NoDup (map fst c) -> NoDup (map fst (most_common n c)).
Proof.
  intro ND. unfold most_common. rewrite <- firstn_map.
  apply NoDup_firstn.
  eapply Permutation_NoDup; [| exact ND].
  apply Permutation_map, Permutation_sym, ListFacts.stable_sort_perm.
Qed.

(** What [most_common] leaves out counts no more than what it keeps. *)
Lemma most_common_largest (e e' : string * nat) :
  In e c -> ~ In e (most_common n c) -> In e' (most_common n c) ->
  (snd e <= snd e')%nat.
Proof.
  unfold most_common.
  set (s := stable_sort (fun y x : string * nat => (snd x <? snd y)%nat) c).
  intros He Hn He'.
  assert (Hs : In e (firstn n s ++ skipn n s)).
  { rewrite firstn_skipn. apply (ListFacts.stable_sort_In _ _ _). exact He. }
  apply in_app_or in Hs as [Hs | Hs]; [contradiction |].
  pose proof count_order_sorted as S. fold s in S.
  rewrite <- (firstn_skipn n s) in S.
  exact (sorted_app_inv _ _ _ S e' e He' Hs).
Qed.
End MostCommon.

(** The tally of the known years. *)
Lemma year_get_add (y y' : Z) (c : list (Z * nat)) :
  year_get y' (year_add y c) =
  if y =? y' then S (year_get y' c) else year_get y' c.
Proof.
  induction c as [| [k n] rest IH]; simpl.
  - destruct (y =? y'); reflexivity.
  - destruct (Z.eqb_spec k y) as [-> | Hky]; simpl.
    + destruct (y =? y'); reflexivity.
    + rewrite IH. destruct (Z.eqb_spec k y') as [-> | Hky']; auto.
      destruct (Z.eqb_spec y y'); congruence.
Qed.

Lemma year_get_fold (y : Z) (data : catalog) :
  forall c,
    year_get y
      (fold_left (fun c y => match y with
                             | Some v => year_add v c
                             | None => c
                             end) (map release_year data) c) =
    (year_get y c + released_in y data)%nat.
Proof.
  unfold released_in.
  induction data as [| r data IH]; intro c; simpl; [lia |].
  rewrite IH. destruct (release_year r) as [v |]; simpl; [| lia].
  rewrite year_get_add. destruct (v =? y); simpl; lia.
Qed.

Lemma year_add_keys (y k : Z) (c : list (Z * nat)) :
  In k (map fst (year_add y c)) <-> k = y \/ In k (map fst c).
Proof.
  induction c as [| [k' n] rest IH]; simpl.
  - intuition.
  - destruct (Z.eqb_spec k' y) as [-> | Hk]; simpl.
    + intuition.
    + rewrite IH. intuition.
Qed.

Lemma year_add_wf (y : Z) (c : list (Z * nat)) :
  NoDup (map fst c) /\ Forall (fun kn => (0 < snd kn)%nat) c ->
  NoDup (map fst (year_add y c))
  /\ Forall (fun kn => (0 < snd kn)%nat) (year_add y c).
Proof.
  induction c as [| [k n] rest IH]; simpl; intros [ND POS].
  - split; repeat constructor. auto.
  - inversion ND as [| ? ? Hk ND']; subst.
    inversion POS as [| ? ? Hn POS']; subst. simpl in Hn.
    destruct (Z.eqb_spec k y) as [-> | Hky]; simpl.
    + split; constructor; simpl; auto.
    + destruct (IH (conj ND' POS')) as [ND2 POS2].
      split; constructor; auto.
      rewrite year_add_keys. intros [-> | H]; auto.
Qed.

Lemma year_fold_wf (col : list (option Z)) :
  forall c,
    NoDup (map fst c) /\ Forall (fun kn => (0 < snd kn)%nat) c ->
    NoDup (map fst (fold_left (fun c y => match y with
                                          | Some v => year_add v c
                                          | None => c
                                          end) col c))
    /\ Forall (fun kn => (0 < snd kn)%nat)
         (fold_left (fun c y => match y with
                                | Some v => year_add v c
                                | None => c
                                end) col c).
Proof.
  induction col as [| y col IH]; intros c W; simpl; auto.
  apply IH. destruct y; [apply year_add_wf |]; exact W.
Qed.

Lemma year_In (y : Z) (n : nat) (c : list (Z * nat)) :
  NoDup (map fst c) /\ Forall (fun kn => (0 < snd kn)%nat) c ->
  (In (y, n) c <-> year_get y c = n /\ (0 < n)%nat).
Proof.
  induction c as [| [k m] rest IH]; simpl; intros [ND POS].
  - split; [tauto | lia].
  - inversion ND as [| ? ? Hk ND']; subst.
    inversion POS as [| ? ? Hm POS']; subst. simpl in Hm.
    specialize (IH (conj ND' POS')).
    destruct (Z.eqb_spec k y) as [-> | Hky].
    + split.
      * intros [E | H].
        -- injection E as ->. auto.
        -- exfalso. apply Hk. apply (in_map fst) in H. exact H.
      * intros [-> _]. auto.
    + rewrite <- IH. split.
      * intros [E | H]; [congruence | exact H].
      * auto.
Qed.

Lemma strictly_by_key (l : list (Z * nat)) :
  StronglySorted (fun a b => (fst b <? fst a) = false) l ->
  NoDup (map fst l) ->
  StronglySorted (fun a b => fst a < fst b) l.
Proof.
  induction 1 as [| a l S IH F]; simpl; intro ND; constructor.
  - apply IH. inversion ND; auto.
  - inversion ND as [| ? ? Ha _]; subst.
    rewrite Forall_forall in *. intros b Hb.
    specialize (F b Hb). apply Z.ltb_ge in F.
    assert (fst a <> fst b) by (intro E; apply Ha; rewrite E; apply in_map, Hb).
    lia.
Qed.

End Analyzer.

(** X13: the two type counters never add up to more than the total, and
    they add up to it exactly when every row is a "Movie" or a "TV Show". *)
Theorem type_counts (data : catalog) :
  (movies (analyze_netflix_data data) + tv_shows (analyze_netflix_data data)
   <= total_titles (analyze_netflix_data data))%nat
  /\ ((movies (analyze_netflix_data data) + tv_shows (analyze_netflix_data data)
       = total_titles (analyze_netflix_data data))%nat <->
      Forall (fun r => type r = "Movie" \/ type r = "TV Show") data).
Proof.
  simpl.
  assert (L : forall rows : catalog,
             (length (filter (fun r => String.eqb (type r) "Movie") rows)
              + length (filter (fun r => String.eqb (type r) "TV Show") rows)
              <= length rows)%nat).
  { induction rows as [| r rows IH]; simpl; auto.
    destruct (String.eqb_spec (type r) "Movie") as [E | N];
      destruct (String.eqb_spec (type r) "TV Show") as [E' | N'];
      simpl; try lia. rewrite E in E'. discriminate. }
  split; [apply L |].
  induction data as [| r data IH]; simpl.
  - split; auto.
  - pose proof (L data) as Ld.
    destruct (String.eqb_spec (type r) "Movie") as [E | N];
      destruct (String.eqb_spec (type r) "TV Show") as [E' | N']; simpl.
    + rewrite E in E'. discriminate.
    + split; intro H.
      * constructor; auto. apply IH. lia.
      * inversion H; subst. apply IH in H3. lia.
    + split; intro H.
      * constructor; auto. apply IH. lia.
      * inversion H; subst. apply IH in H3. lia.
    + split; intro H.
      * lia.
      * inversion H; subst. tauto.
Qed.

(** X14: [top_genres] and [top_countries] hold at most 10 entries, by
    decreasing count, no token twice, each with the number of times the
    token occurs among all the tokens of the column. *)
Theorem top_lists_shape (data : catalog) :
  ((length (top_genres (analyze_netflix_data data)) <= 10)%nat
   /\ by_count (top_genres (analyze_netflix_data data))
   /\ NoDup (map fst (top_genres (analyze_netflix_data data)))
   /\ forall t k, In (t, k) (top_genres (analyze_netflix_data data)) ->
                  k = count_occ string_dec (every_token listed_in data) t
                  /\ (0 < k)%nat)
  /\ ((length (top_countries (analyze_netflix_data data)) <= 10)%nat
      /\ by_count (top_countries (analyze_netflix_data data))
      /\ NoDup (map fst (top_countries (analyze_netflix_data data)))
      /\ forall t k, In (t, k) (top_countries (analyze_netflix_data data)) ->
                     k = count_occ string_dec (every_token country data) t
                     /\ (0 < k)%nat).
Proof.
  simpl. split; repeat split;
    try apply Analyzer.most_common_length;
    try apply Analyzer.most_common_by_count;
    try (apply Analyzer.most_common_keys;
         match goal with
         | |- NoDup (map fst (Counter ?l)) =>
             destruct (Tally.Counter_wf l) as [ND _]; exact ND
         end);
    try (apply Analyzer.most_common_In in H;
         apply (proj1 (Tally.Counter_In _ _ _)) in H; tauto).
Qed.

(** X15: the top lists are the largest entries: a token of the tally that
    is left out of [top_genres] (of [top_countries]) occurs no more often
    than any token that is in it. *)
Theorem top_lists_are_largest (data : catalog) (e e' : string * nat) :
  (In e (Counter (every_token listed_in data)) ->
   ~ In e (top_genres (analyze_netflix_data data)) ->
   In e' (top_genres (analyze_netflix_data data)) ->
   (snd e <= snd e')%nat)
  /\ (In e (Counter (every_token country data)) ->
      ~ In e (top_countries (analyze_netflix_data data)) ->
      In e' (top_countries (analyze_netflix_data data)) ->
      (snd e <= snd e')%nat).
Proof. split; simpl; apply Analyzer.most_common_largest. Qed.

(** X16: the year histogram lists the known release years in strictly
    increasing order, each with the number of rows released that year; rows
    without a year are not counted. *)
Theorem year_distribution_spec (data : catalog) :
  StronglySorted (fun a b => fst a < fst b) (year_distribution data)
  /\ forall y n, In (y, n) (year_distribution data) <->
                 n = released_in y data /\ (0 < n)%nat.
Proof.
  unfold year_distribution, sort_index, value_counts.
  set (tally := fold_left (fun c y => match y with
                                      | Some v => year_add v c
                                      | None => c
                                      end) (map release_year data) []).
  assert (W : NoDup (map fst tally) /\ Forall (fun kn => (0 < snd kn)%nat) tally).
  { apply Analyzer.year_fold_wf. split; constructor. }
  set (counted := stable_sort (fun a b : Z * nat => (snd b <? snd a)%nat) tally).
  assert (P : Permutation
                (stable_sort (fun a b : Z * nat => fst a <? fst b) counted) tally).
  { etransitivity; apply ListFacts.stable_sort_perm. }
  split.
  - apply Analyzer.strictly_by_key.
    + apply (ListFacts.stable_sort_sorted (fun a b : Z * nat => fst a <? fst b)).
      * intros a b H. apply Z.ltb_lt in H. apply Z.ltb_ge. lia.
      * intros a b c H1 H2. apply Z.ltb_ge in H1, H2. apply Z.ltb_ge. lia.
    + eapply Permutation_NoDup; [| exact (proj1 W)].
      apply Permutation_map, Permutation_sym, P.
  - intros y n.
    assert (I : In (y, n)
                  (stable_sort (fun a b : Z * nat => fst a <? fst b) counted)
                <-> In (y, n) tally).
    { split; apply Permutation_in; [| apply Permutation_sym]; exact P. }
    rewrite I, (Analyzer.year_In y n tally W).
    unfold tally. rewrite Analyzer.year_get_fold. simpl. intuition.
Qed.

(** ** Presentation *)
Module Display.
Local Open Scope list_scope.

Lemma truthy_or_none (s : string) : truthy (or_none s) = nonempty s.
Proof.
  unfold or_none. destruct (nonempty s) eqn:E; simpl; auto.
Qed.

Lemma cards_no_year_error (min_year : Z) (rows : list title_record) :
  (forall r, In r rows -> year_ge (release_year r) min_year = true) ->
  forall idx y m, ~ In (st_error_year y m) (cards min_year idx rows).
Proof.
  induction rows as [| r rows IH]; intros Hy idx y m; simpl; [tauto |].
  rewrite (Hy r) by (left; reflexivity).
  intros [H | [H | [H | [H | [H | [H | H]]]]]]; try discriminate.
  revert H. apply IH. intros r' Hr'. apply Hy. right. exact Hr'.
Qed.

Lemma cards_no_banner (min_year : Z) (rows : list title_record) :
  forall idx,
    ~ In st_warning_no_criteria (cards min_year idx rows)
    /\ forall n text, ~ In (st_success_found n text) (cards min_year idx rows).
Proof.
  induction rows as [| r rows IH]; intro idx; simpl; [tauto |].
  destruct (IH (S idx)) as [W S].
  destruct (year_ge (release_year r) min_year); split;
    try (intros n text); intros [H | [H | [H | [H | [H | [H | H]]]]]];
    try discriminate; revert H; first [exact W | apply S].
Qed.

Lemma engine_length_le (data : catalog)
    (genre director_arg country_arg : option string) (content_type : string)
    (count min_year : Z) (l : list title_record) :
  get_smart_recommendations data genre director_arg country_arg content_type
    count min_year = Returns l ->
  0 <= count -> Z.of_nat (length l) <= count.
Proof.
  intros H Hc.
  apply Engine.engine_returns_compiled in H
    as (rg & rd & rc & _ & _ & _ & ->).
  rewrite EngineMore.head_nonneg by exact Hc.
  pose proof (firstn_le_length (Z.to_nat count)
                (sort_values (filter (passes rg rd rc content_type min_year) data))).
  lia.
Qed.

(** The text of the success banner when at least one criterion is set. *)
Lemma filter_text_named (genre director_sel country_sel : string) :
  nonempty genre || nonempty director_sel || nonempty country_sel = true ->
  match (applied "genre" genre ++ applied "director" director_sel
         ++ applied "country" country_sel) with
  | [] => "your criteria"
  | _ :: _ =>
      String.concat ", "
        (applied "genre" genre ++ applied "director" director_sel
         ++ applied "country" country_sel)
  end <> "your criteria".
Proof.
  unfold applied.
  destruct (nonempty genre), (nonempty director_sel), (nonempty country_sel);
    simpl; intro G; try discriminate.
Qed.

(** The warning is shown only when no criterion is set. *)
Lemma warning_needs_no_criteria (netflix_data : catalog)
    (genre director_sel country_sel content_type : string)
    (num_recommendations min_year : Z) (trace : list st_call) :
  get_and_display_recommendations netflix_data genre director_sel country_sel
    content_type num_recommendations min_year = Returns trace ->
  In st_warning_no_criteria trace ->
  nonempty genre || nonempty director_sel || nonempty country_sel = false.
Proof.
  unfold get_and_display_recommendations.
  rewrite !truthy_or_none.
  destruct (nonempty genre || nonempty director_sel || nonempty country_sel)
    eqn:G; simpl; auto.
  destruct (get_smart_recommendations _ _ _ _ _ _ _) as [recs | |] eqn:E;
    simpl; try discriminate.
  destruct recs as [| r recs]; intros H Hin; injection H as <-;
    exfalso; revert Hin.
  - destruct (nonempty genre), (nonempty director_sel),
      (nonempty country_sel); simpl; intuition discriminate.
  - intros [Hin | Hin]; [discriminate |].
    exact (proj1 (cards_no_banner min_year (r :: recs) 1%nat) Hin).
Qed.

Lemma plain_or_none (s : string) : plain_pattern s = true -> plain_arg (or_none s).
Proof.
  unfold plain_arg, or_none. destruct (nonempty s); simpl; auto.
Qed.

(** Selections without special characters never make the page raise. *)
Lemma plain_selections_return (netflix_data : catalog)
    (genre director_sel country_sel content_type : string)
    (num_recommendations min_year : Z) :
  plain_pattern genre = true ->
  plain_pattern director_sel = true ->
  plain_pattern country_sel = true ->
  exists trace,
    get_and_display_recommendations netflix_data genre director_sel country_sel
      content_type num_recommendations min_year = Returns trace.
Proof.
  intros Pg Pd Pc. unfold get_and_display_recommendations.
  destruct (negb _); [eexists; reflexivity |].
  destruct (Engine.compile_arg_plain _ (plain_or_none _ Pg)) as (rg & Cg & _).
  destruct (Engine.compile_arg_plain _ (plain_or_none _ Pd)) as (rd & Cd & _).
  destruct (Engine.compile_arg_plain _ (plain_or_none _ Pc)) as (rc & Cc & _).
  rewrite (Engine.engine_compiled _ _ _ _ _ _ _ _ _ _ Cg Cd Cc). simpl.
  destruct (head _ _); eexists; reflexivity.
Qed.

End Display.

(** X17: the "year below the minimum" message of a result card is never
    shown: every card of every search carries the success mark of the year
    check. *)
Theorem year_check_never_fails (netflix_data : catalog)
    (genre director_sel country_sel content_type : string)
    (num_recommendations min_year : Z) (trace : list st_call) :
  get_and_display_recommendations netflix_data genre director_sel country_sel
    content_type num_recommendations min_year = Returns trace ->
  Forall (fun call => match call with
                      | st_error_year _ _ => False
                      | _ => True
                      end) trace.
Proof.
  intro R. apply Forall_forall. intros call Hcall.
  destruct call as [| | | | | | | | | | | | y m |]; auto.
  revert R y m Hcall.
  unfold get_and_display_recommendations.
  destruct (negb _).
  - intros H y m. injection H as <-. intros [E | []]. discriminate.
  - destruct (get_smart_recommendations _ _ _ _ _ _ _) as [recs | |] eqn:E;
      simpl; try discriminate.
    destruct recs as [| r recs]; intros H y m; injection H as <-.
    + destruct (nonempty genre), (nonempty director_sel), (nonempty country_sel);
        simpl; intuition discriminate.
    + assert (HY : forall r', In r' (r :: recs) ->
                             year_ge (release_year r') min_year = true).
      { intros r' Hr'.
        destruct (Engine.survivor_passes _ _ _ _ _ _ _ _ _ E Hr')
          as (rg & rd & rc & _ & P).
        eapply EngineMore.passes_year_ge, P. }
      intros [H | H]; [discriminate |].
      exact (Display.cards_no_year_error min_year (r :: recs) HY 1%nat y m H).
Qed.

Lemma year_check_never_fails_witness :
  Forall (fun call => match call with
                      | st_error_year _ _ => False
                      | _ => True
                      end)
    [st_success_found 1 "genre 'Dramas', country 'US'";
     st_markdown_title 1 "A";
     st_write_details "Movie" (Some 2019) ["X"; "US"];
     st_write_genres "Comedies,Dramas";
     st_metric_popularity (popularity_score title_A);
     st_success_year (Some 2019) 2015;
     st_divider].
Proof.
  apply (year_check_never_fails sample_catalog "Dramas" "" "US" "Both" 10 2015).
  vm_compute. reflexivity.
Defined.

(** X18: the success banner counts the cards that follow it, at least one
    and, for a limit >= 0, at most the limit; and it always names the
    criteria: the fallback text "your criteria" is never shown. *)
Theorem success_banner (netflix_data : catalog)
    (genre director_sel country_sel content_type : string)
    (num_recommendations min_year : Z) (trace : list st_call)
    (n : nat) (text : string) :
  get_and_display_recommendations netflix_data genre director_sel country_sel
    content_type num_recommendations min_year = Returns trace ->
  In (st_success_found n text) trace ->
  text <> "your criteria"
  /\ (1 <= n)%nat
  /\ (0 <= num_recommendations -> Z.of_nat n <= num_recommendations)
  /\ exists rows, length rows = n
                  /\ trace = st_success_found n text :: cards min_year 1 rows.
Proof.
  unfold get_and_display_recommendations.
  rewrite !Display.truthy_or_none.
  destruct (nonempty genre || nonempty director_sel || nonempty country_sel)
    eqn:G; simpl.
  - destruct (get_smart_recommendations _ _ _ _ _ _ _) as [recs | |] eqn:E;
      simpl; try discriminate.
    destruct recs as [| r recs]; intros H Hin; injection H as <-.
    + exfalso. revert Hin.
      destruct (nonempty genre), (nonempty director_sel), (nonempty country_sel);
        simpl; intuition discriminate.
    + destruct Hin as [Hin | Hin].
      * injection Hin as <- <-. repeat split.
        -- exact (Display.filter_text_named genre director_sel country_sel G).
        -- simpl. lia.
        -- intro Hc.
           exact (Display.engine_length_le _ _ _ _ _ _ _ (r :: recs) E Hc).
        -- exists (r :: recs). split; reflexivity.
      * exfalso.
        exact (proj2 (Display.cards_no_banner min_year (r :: recs) 1%nat)
                 n text Hin).
  - intros H Hin. injection H as <-. destruct Hin as [Hin | []]. discriminate.
Qed.

Lemma success_banner_witness :
  "genre 'Dramas'" <> "your criteria"
  /\ (1 <= 2)%nat
  /\ (0 <= 10 -> Z.of_nat 2 <= 10)
  /\ exists rows, length rows = 2%nat
                  /\ st_success_found 2 "genre 'Dramas'"
                     :: cards 2000 1 [title_A; title_B]
                     = st_success_found 2 "genre 'Dramas'" :: cards 2000 1 rows.
Proof.
  apply (success_banner sample_catalog "Dramas" "" "" "Both" 10 2000
           (st_success_found 2 "genre 'Dramas'" :: cards 2000 1 [title_A; title_B])
           2 "genre 'Dramas'").
  - vm_compute. reflexivity.
  - left. reflexivity.
Defined.

(** X19: the content type alone is not a search criterion: when no genre,
    no director and no country is selected the only call made is the
    warning, and the engine is not run; the warning is shown in no other
    case. *)
Theorem warning_iff_no_criteria (netflix_data : catalog)
    (genre director_sel country_sel content_type : string)
    (num_recommendations min_year : Z) :
  (genre = "" /\ director_sel = "" /\ country_sel = "" ->
   get_and_display_recommendations netflix_data genre director_sel country_sel
     content_type num_recommendations min_year
   = Returns [st_warning_no_criteria])
  /\ forall trace,
       get_and_display_recommendations netflix_data genre director_sel
         country_sel content_type num_recommendations min_year = Returns trace ->
       In st_warning_no_criteria trace ->
       genre = "" /\ director_sel = "" /\ country_sel = "".
Proof.
  split.
  - intros (-> & -> & ->). reflexivity.
  - intros trace H Hin.
    pose proof (Display.warning_needs_no_criteria _ _ _ _ _ _ _ _ H Hin) as G.
    unfold nonempty in G.
    apply orb_false_iff in G as [G Gc]. apply orb_false_iff in G as [Gg Gd].
    apply negb_false_iff in Gg, Gd, Gc.
    apply String.eqb_eq in Gg, Gd, Gc. auto.
Qed.

Lemma warning_iff_no_criteria_witness :
  get_and_display_recommendations sample_catalog "" "" "" "Movie" 10 2000
  = Returns [st_warning_no_criteria].
Proof.
  apply (proj1 (warning_iff_no_criteria sample_catalog "" "" "" "Movie" 10 2000)).
  repeat split.
Defined.

Lemma top_lists_are_largest_witness :
  (snd ("k", 1%nat) <= snd ("a", 2%nat))%nat
  /\ (snd ("k", 1%nat) <= snd ("a", 2%nat))%nat.
Proof.
  destruct (top_lists_are_largest
              [mkTitle "M" "Movie" (Some 2021) "a,b,c,d,e,f,g,h,i,j,k,a" ""
                 "a,b,c,d,e,f,g,h,i,j,k,a"] ("k", 1%nat) ("a", 2%nat))
    as [G C].
  split; [apply G | apply C];
    try (vm_compute; tauto);
    vm_compute; intro H;
    repeat (destruct H as [H | H]; [discriminate H |]); exact H.
Defined.

(** X20: selections that hold no special character never make the page
    raise: the call runs to its end and shows the warning, the "no
    recommendations" message or the result cards. *)
Theorem plain_selections_never_raise (netflix_data : catalog)
    (genre director_sel country_sel content_type : string)
    (num_recommendations min_year : Z) :
  plain_pattern genre = true ->
  plain_pattern director_sel = true ->
  plain_pattern country_sel = true ->
  exists trace,
    get_and_display_recommendations netflix_data genre director_sel country_sel
      content_type num_recommendations min_year = Returns trace
    /\ (In st_warning_no_criteria trace
        \/ In st_error_no_recommendations trace
        \/ exists n text, In (st_success_found n text) trace).
Proof.
  intros Pg Pd Pc.
  destruct (Display.plain_selections_return netflix_data genre director_sel
              country_sel content_type num_recommendations min_year Pg Pd Pc)
    as [trace E].
  exists trace. split; [exact E |].
  revert E. unfold get_and_display_recommendations.
  destruct (negb _).
  - intro H. injection H as <-. left. left. reflexivity.
  - destruct (get_smart_recommendations _ _ _ _ _ _ _) as [recs | |];
      simpl; try discriminate.
    destruct recs; intro H; injection H as <-.
    + right. left. left. reflexivity.
    + right. right. eexists. eexists. left. reflexivity.
Qed.

Lemma plain_selections_never_raise_witness :
  exists trace,
    get_and_display_recommendations sample_catalog "Dramas" "" "US" "Both" 10 2015
    = Returns trace
    /\ (In st_warning_no_criteria trace
        \/ In st_error_no_recommendations trace
        \/ exists n text, In (st_success_found n text) trace).
Proof.
  apply (plain_selections_never_raise sample_catalog "Dramas" "" "US" "Both"
           10 2015); reflexivity.
Defined.

(** X21: a quick-select button always runs a search: whatever the catalog,
    with director and country selections free of special characters, the
    call for one of the eight quick genres returns and does not show the
    "select a criterion" warning. *)
Theorem quick_select_runs_a_search (netflix_data : catalog)
    (quick_genre director_sel country_sel content_type : string)
    (num_recommendations min_year : Z) :
  In quick_genre popular_genres ->
  plain_pattern director_sel = true ->
  plain_pattern country_sel = true ->
  exists trace,
    get_and_display_recommendations netflix_data quick_genre director_sel
      country_sel content_type num_recommendations min_year = Returns trace
    /\ ~ In st_warning_no_criteria trace.
Proof.
  intros Hq Pd Pc.
  assert (Q : forallb (fun q => plain_pattern q && nonempty q) popular_genres
              = true) by (vm_compute; reflexivity).
  rewrite forallb_forall in Q. specialize (Q quick_genre Hq).
  apply andb_true_iff in Q as [Pq Nq].
  destruct (Display.plain_selections_return netflix_data quick_genre director_sel
              country_sel content_type num_recommendations min_year Pq Pd Pc)
    as [trace E].
  exists trace. split; [exact E |]. intro W.
  pose proof (Display.warning_needs_no_criteria _ _ _ _ _ _ _ _ E W) as G.
  rewrite Nq in G. discriminate.
Qed.

Lemma quick_select_runs_a_search_witness :
  exists trace,
    get_and_display_recommendations sample_catalog "Horror Movies" "" "" "Both"
      10 2000 = Returns trace
    /\ ~ In st_warning_no_criteria trace.
Proof.
  apply (quick_select_runs_a_search sample_catalog "Horror Movies" "" "" "Both"
           10 2000).
  - vm_compute. tauto.
  - reflexivity.
  - reflexivity.
Defined.

Module TopLists.
Local Open Scope list_scope.

Lemma tokens_nonempty (s : string) : tokens s <> [].
Proof.
  unfold tokens. destruct (Text.split_comma_head s) as (t & ts & q & E & _).
  rewrite E. discriminate.
Qed.

Lemma Counter_nonempty (l : list string) : l <> [] -> Counter l <> [].
Proof.
  destruct l as [| t l]; [congruence |]. intros _ E.
  assert (H : In (t, count_occ string_dec (t :: l) t) (Counter (t :: l))).
  { apply Tally.Counter_In. split; auto.
    apply (count_occ_In string_dec). left. reflexivity. }
  rewrite E in H. contradiction.
Qed.

Lemma most_common_nonempty (n : nat) (c : list (string * nat)) :
  (0 < n)%nat -> c <> [] -> most_common n c <> [].
Proof.
  intros Hn Hc E. apply (f_equal (@length _)) in E.
  unfold most_common in E.
  rewrite length_firstn, ListFacts.stable_sort_length in E.
  destruct c; [congruence |]. simpl in E. lia.
Qed.

Lemma every_token_nonempty (field : title_record -> string) (data : catalog) :
  data <> [] -> every_token field data <> [].
Proof.
  destruct data as [| r data]; [congruence |]. intros _.
  unfold every_token. simpl.
  pose proof (tokens_nonempty (field r)).
  destruct (tokens (field r)); [congruence | discriminate].
Qed.

End TopLists.

(** X22: for a catalog with at least one row the two top lists are never
    empty (a row with an empty field still gives the empty token), so the
    unpacking of [analysis['top_genres']] into genres and counts on the
    insights page has its two values. *)
Theorem top_lists_nonempty (data : catalog) :
  data <> [] ->
  top_genres (analyze_netflix_data data) <> []
  /\ top_countries (analyze_netflix_data data) <> [].
Proof.
  intro H. simpl. split; apply TopLists.most_common_nonempty; try lia;
    apply TopLists.Counter_nonempty, TopLists.every_token_nonempty, H.
Qed.

Lemma top_lists_nonempty_witness :
  top_genres (analyze_netflix_data [title_U]) <> []
  /\ top_countries (analyze_netflix_data [title_U]) <> [].
Proof. apply (top_lists_nonempty [title_U]). discriminate. Defined.
